(** * GM4-Polyfill: the installer, the promisifying wrapper, the body waiter
      and the polyfills of [gm4-polyfill.js], as a shallow embedding.

    The canonical variant (the first script of [src/gm4-polyfill.js]) is the
    one modelled.  The script is an IIFE that runs once at module scope; it
    is embedded as the function [install] on a [realm], the pair of the two
    global surfaces it reads and writes. *)

From stdpp Require Import gmap strings list fin_maps pretty.
From Stdlib Require Import ZArith NArith Lia.

Open Scope string_scope.

(** ** JavaScript values

    Only what the script can tell apart is kept.  Objects and functions carry
    the identity [o] they were allocated with, so that replacing a function by
    a fresh copy of itself is visible.  Numbers are integers: the script reads
    numbers only as delays and counters (no NaN, no fractions). *)

Inductive console_method := ConsoleLog | ConsoleError | ConsoleWarn.

(** The three members of the [polyfills] object literal, in source order. *)
Inductive polyfill_name := PAddStyle | PRegisterMenuCommand | PGetResourceText.

Inductive value :=
  | VUndefined
  | VNull
  | VBool (b : bool)
  | VNum (n : Z)
  | VStr (s : string)
  | VObject (o : nat)                       (* a plain object, e.g. [{}] or GM_info *)
  | VError (msg : string)                   (* [new Error(msg)] or a host error *)
  | VNode (o : nat)                         (* a DOM node *)
  | VHost (name : string)                   (* a function supplied by the host *)
  | VBound (m : console_method) (o : nat)   (* [console.m.bind(console)] *)
  | VPolyfill (p : polyfill_name) (o : nat) (* a member of [polyfills] *)
  | VForward (old : value) (o : nat).       (* [(...args) => utils.promisify(old, ...args)] *)

(** ToBoolean, as used by [if (x)], [!x] and [a && b]. *)
Definition to_boolean (v : value) : bool :=
  match v with
  | VUndefined | VNull | VBool false | VNum 0 | VStr EmptyString => false
  | _ => true
  end.

(** [typeof v === 'undefined'] *)
Definition typeof_undefined (v : value) : bool :=
  match v with VUndefined => true | _ => false end.

(** Property read [o[k]]: a missing property reads as [undefined]. *)
Definition get (o : gmap string value) (k : string) : value :=
  default VUndefined (o !! k).

(** ** The two surfaces

    [window] is the global object without its property [GM], which is kept in
    its own field: [None] when [window.GM] is missing (or falsy), [Some g] when
    it is an object with own properties [g].  A bare global identifier such as
    [GM_info] is looked up in [window]; reading one that is not declared throws
    a ReferenceError.  [fresh] is the next unused object identity. *)

Record realm := Realm {
  window : gmap string value;
  GM : option (gmap string value);
  fresh : nat
}.

Inductive outcome (A : Type) :=
  | Done (a : A)
  | Raised (e : value).
Arguments Done {A} a.
Arguments Raised {A} e.

Definition ReferenceError (name : string) : value :=
  VError ("ReferenceError: " ++ name ++ " is not defined").

(** Reading the global identifier [name]. *)
Definition global (w : gmap string value) (name : string) : outcome value :=
  match w !! name with
  | Some v => Done v
  | None => Raised (ReferenceError name)
  end.

(** ** The tables *)

Definition polyfill_key (p : polyfill_name) : string :=
  match p with
  | PAddStyle => "GM_addStyle"
  | PRegisterMenuCommand => "GM_registerMenuCommand"
  | PGetResourceText => "GM_getResourceText"
  end.

(** [Object.entries(polyfills)]; the three function objects are allocated when
    the object literal is evaluated, at identities [n], [n+1], [n+2]. *)
Definition polyfills (n : nat) : list (string * value) :=
  [ (polyfill_key PAddStyle, VPolyfill PAddStyle n);
    (polyfill_key PRegisterMenuCommand, VPolyfill PRegisterMenuCommand (n + 1));
    (polyfill_key PGetResourceText, VPolyfill PGetResourceText (n + 2)) ].

(** [Object.entries(directMappings)], given the value read from [GM_info];
    each [bind] allocates a new function. *)
Definition directMappings (info : value) (n : nat) : list (string * value) :=
  [ ("log", VBound ConsoleLog n);
    ("info", info);
    ("error", VBound ConsoleError (n + 1));
    ("warn", VBound ConsoleWarn (n + 2)) ].

(** [Object.entries(promiseMappings)]: (legacy name, unified name). *)
Definition promiseMappings : list (string * string) :=
  [ ("GM_addStyle", "addStyle");
    ("GM_deleteValue", "deleteValue");
    ("GM_getResourceURL", "getResourceUrl");
    ("GM_getValue", "getValue");
    ("GM_listValues", "listValues");
    ("GM_notification", "notification");
    ("GM_openInTab", "openInTab");
    ("GM_registerMenuCommand", "registerMenuCommand");
    ("GM_setClipboard", "setClipboard");
    ("GM_setValue", "setValue");
    ("GM_xmlhttpRequest", "xmlHttpRequest");
    ("GM_getResourceText", "getResourceText");
    ("GM_download", "download");
    ("GM_cookie", "cookie") ].

(** ** The installation steps *)

(** Lines 23-28: [if (!window.GM) window.GM = { info: GM_info || {}, version: '4.0.0' }].
    Returns the namespace and the next free identity. *)
Definition init_GM (r : realm) : outcome (gmap string value * nat) :=
  match GM r with
  | Some g => Done (g, fresh r)
  | None =>
      match global (window r) "GM_info" with
      | Raised e => Raised e
      | Done i =>
          if to_boolean i
          then Done (<["version" := VStr "4.0.0"]> (<["info" := i]> ∅), fresh r)
          else Done (<["version" := VStr "4.0.0"]> (<["info" := VObject (fresh r)]> ∅),
                     S (fresh r))
      end
  end.

(** Body of the loop of lines 196-200. *)
Definition direct_step (g : gmap string value) (e : string * value)
  : gmap string value :=
  let '(newKey, old) := e in
  if to_boolean old && negb (to_boolean (get g newKey))
  then <[newKey := old]> g
  else g.

(** Body of the loop of lines 221-225. *)
Definition polyfill_step (w : gmap string value) (e : string * value)
  : gmap string value :=
  let '(key, implementation) := e in
  if typeof_undefined (get w key)
  then <[key := implementation]> w
  else w.

(** Body of the loop of lines 228-233; the arrow function is a new object. *)
Definition promise_step (w : gmap string value) (st : gmap string value * nat)
  (e : string * string) : gmap string value * nat :=
  let '(oldKey, newKey) := e in
  let '(g, n) := st in
  let old := get w oldKey in
  if to_boolean old && negb (to_boolean (get g newKey))
  then (<[newKey := VForward old n]> g, S n)
  else (g, n).

(** The whole script, in source order: namespace, [polyfills] literal,
    [directMappings] literal (which reads [GM_info]), direct loop, polyfill
    loop, forwarding loop.  An exception at module scope aborts the script;
    both places that can throw do so before anything was written. *)
Definition install (r : realm) : outcome realm :=
  match init_GM r with
  | Raised e => Raised e
  | Done (g0, n0) =>
      let pf := polyfills n0 in
      let n1 := n0 + 3 in
      match global (window r) "GM_info" with
      | Raised e => Raised e
      | Done info =>
          let dm := directMappings info n1 in
          let n2 := n1 + 3 in
          let g1 := foldl direct_step g0 dm in
          let w1 := foldl polyfill_step (window r) pf in
          let '(g2, n3) := foldl (promise_step w1) (g1, n2) promiseMappings in
          Done {| window := w1; GM := Some g2; fresh := n3 |}
      end
  end.

(** Reading [GM[k]] in a realm ([undefined] when there is no namespace). *)
Definition GM_get (r : realm) (k : string) : value :=
  match GM r with Some g => get g k | None => VUndefined end.


(* ================================================================== *)
(** * Promises, timers and the document *)

(** ** What a call does

    [fn.apply(this, args)] either throws or returns; what it returns is a
    plain value or a promise.  A promise made by the callee is described by
    its [fate]: it never settles, or settles some milliseconds later. *)

Inductive settlement :=
  | Fulfilled (v : value)
  | Rejected (e : value).

Inductive fate :=
  | Never
  | Eventually (after_ms : N) (s : settlement).

Inductive returned :=
  | Plain (v : value)
  | Promise (f : fate).

Inductive completion :=
  | Returns (r : returned)
  | Throws (e : value).

Definition callable (fn : value) : bool :=
  match fn with
  | VHost _ | VBound _ _ | VPolyfill _ _ | VForward _ _ => true
  | _ => false
  end.

Definition TypeError (msg : string) : value := VError ("TypeError: " ++ msg).

(** ** The document, as far as the script looks at it *)

Inductive ready_state := Loading | Interactive | Complete.

(** The function given to [addEventListener]. *)
Inductive handler :=
  | WrappedCommand (commandFunc : value).  (* [async (...args) => { try { await commandFunc.apply(this, args) } catch ... }] *)

Record listener := Listener {
  callback : handler;
  once : bool
}.

Record menuitem := MenuItem {
  item_node : nat;
  textContent : value;
  accessKey : option value;
  click : list listener
}.

Record menu := Menu {
  menu_node : nat;
  data_gm_version : option value;
  children : list menuitem
}.

Record document := Document {
  body : option nat;               (* [document.body] *)
  readyState : ready_state;
  documentElement : option nat;
  gm_menu : option menu;           (* [document.getElementById('gm-registered-menu')] *)
  contextMenu : option string;     (* [body.contextMenu] *)
  next_node : nat                  (* identity of the next created element *)
}.

(** ** One [new Promise(executor)] and the resources of its executor *)

Inductive promise_state :=
  | Pending
  | Settled (s : settlement)
  | Following (f : fate).          (* resolved with a promise: locked in to it *)

Inductive timer_callback :=
  | OperationTimedOut              (* [() => reject(new Error('Operation timed out'))] *)
  | BodyTimedOut.                  (* [() => { observer.disconnect(); reject(new Error('Timeout waiting for body')) }] *)

Inductive observer_callback :=
  | BodyObserver (timeoutId : nat).

Record job := Job {
  promise : promise_state;
  timers : list (nat * N * timer_callback);      (* id, milliseconds left, callback *)
  next_timer : nat;
  observer : option (observer_callback * bool);  (* the MutationObserver; [true] while it observes *)
  resolve_calls : nat;
  reject_calls : nat
}.

Definition new_Promise : job := Job Pending [] 0 None 0 0.

(** [resolve(result)]: settles a pending promise, or locks it to the promise
    it was given; does nothing to a promise that is already resolved. *)
Definition resolve (result : returned) (j : job) : job :=
  Job (match promise j with
       | Pending =>
           match result with
           | Plain v => Settled (Fulfilled v)
           | Promise f => Following f
           end
       | p => p
       end)
      (timers j) (next_timer j) (observer j) (S (resolve_calls j)) (reject_calls j).

Definition reject (e : value) (j : job) : job :=
  Job (match promise j with Pending => Settled (Rejected e) | p => p end)
      (timers j) (next_timer j) (observer j) (resolve_calls j) (S (reject_calls j)).

Definition setTimeout (cb : timer_callback) (delay : N) (j : job) : nat * job :=
  (next_timer j,
   Job (promise j) (timers j ++ [(next_timer j, delay, cb)]) (S (next_timer j))
       (observer j) (resolve_calls j) (reject_calls j)).

Definition clearTimeout (timeoutId : nat) (j : job) : job :=
  Job (promise j) (filter (λ t, t.1.1 ≠ timeoutId) (timers j)) (next_timer j)
      (observer j) (resolve_calls j) (reject_calls j).

(** [new MutationObserver(cb)], not yet observing. *)
Definition new_MutationObserver (cb : observer_callback) (j : job) : job :=
  Job (promise j) (timers j) (next_timer j) (Some (cb, false))
      (resolve_calls j) (reject_calls j).

(** [observer.observe(document.documentElement, ...)] *)
Definition observe (j : job) : job :=
  Job (promise j) (timers j) (next_timer j)
      (match observer j with Some (cb, _) => Some (cb, true) | None => None end)
      (resolve_calls j) (reject_calls j).

(** [observer.disconnect()] *)
Definition disconnect (j : job) : job :=
  Job (promise j) (timers j) (next_timer j)
      (match observer j with Some (cb, _) => Some (cb, false) | None => None end)
      (resolve_calls j) (reject_calls j).

Definition observing (j : job) : bool :=
  match observer j with Some (_, b) => b | None => false end.

(** ** The event loop

    Between two turns of the script either time passes or the document
    changes below its root element. *)

Inductive event :=
  | Advance (ms : N)
  | Mutate (d : document).

Definition run_timer (cb : timer_callback) (j : job) : job :=
  match cb with
  | OperationTimedOut => reject (VError "Operation timed out") j
  | BodyTimedOut => reject (VError "Timeout waiting for body") (disconnect j)
  end.

(** A promise locked to the callee's promise settles with it. *)
Definition follow (ms : N) (p : promise_state) : promise_state :=
  match p with
  | Following (Eventually t s) =>
      if (t <=? ms)%N then Settled s else Following (Eventually (t - ms) s)
  | p => p
  end.

(** [ms] milliseconds pass: the timers that are due run, the others are
    [ms] closer to running. *)
Definition advance (ms : N) (j : job) : job :=
  let due := filter (λ t, (t.1.2 ≤ ms)%N) (timers j) in
  let rest := (λ t, (t.1.1, (t.1.2 - ms)%N, t.2)) <$> filter (λ t, (ms < t.1.2)%N) (timers j) in
  foldl (λ j t, run_timer t.2 j)
        (Job (follow ms (promise j)) rest (next_timer j) (observer j)
             (resolve_calls j) (reject_calls j))
        due.

(** The observer's callback, run when the document has changed to [d]:
    [if (document.body) { clearTimeout(timeoutId); observer.disconnect(); resolve(document.body) }] *)
Definition notify (d : document) (j : job) : job :=
  match observer j with
  | Some (BodyObserver timeoutId, true) =>
      match body d with
      | Some b => resolve (Plain (VNode b)) (disconnect (clearTimeout timeoutId j))
      | None => j
      end
  | _ => j
  end.

Definition step (j : job) (e : event) : job :=
  match e with
  | Advance ms => advance ms j
  | Mutate d => notify d j
  end.

Definition run (j : job) (es : list event) : job := foldl step j es.

(** Milliseconds that pass during [es]. *)
Definition elapsed (es : list event) : N :=
  foldr (λ e acc, match e with Advance ms => (ms + acc)%N | Mutate _ => acc end) 0%N es.

(** The document a script sees after [es], starting from [d]. *)
Definition current (d : document) (es : list event) : document :=
  foldl (λ d e, match e with Advance _ => d | Mutate d' => d' end) d es.

(** ** [utils.promisify] and the forwarding functions *)

Section Calls.
(** The world's function call: what [fn.apply(this, args)] does for a
    function value [fn]. *)
Variable apply : value → list value → completion.
(** The host's conversion of a string to a number of milliseconds. *)
Variable StringToNumber : string → Z.

(** The delay [setTimeout] takes from its second argument. *)
Definition to_delay (timeout : value) : N :=
  match timeout with
  | VNum n => Z.to_N n
  | VBool true => 1
  | VStr s => Z.to_N (StringToNumber s)
  | _ => 0
  end.

(** [fn.apply(this, args)]; calling what is not a function throws. *)
Definition call (fn : value) (args : list value) : completion :=
  if callable fn then apply fn args
  else Throws (TypeError "fn.apply is not a function").

(** Lines 39-54, with the three parameters already bound. *)
Definition promisify (fn : value) (timeout : value) (args : list value) : job :=
  let '(timeoutId, j) := setTimeout OperationTimedOut (to_delay timeout) new_Promise in
  match call fn args with
  | Returns result => resolve result (clearTimeout timeoutId j)
  | Throws error => reject error (clearTimeout timeoutId j)
  end.

(** A call [utils.promisify(fn, ...actuals)]: the first actual is bound to
    [timeout] (5000 when missing or [undefined]), the others to [args]. *)
Definition promisify_call (fn : value) (actuals : list value) : job :=
  let timeout :=
    match actuals with
    | [] | VUndefined :: _ => VNum 5000
    | t :: _ => t
    end in
  promisify fn timeout (tail actuals).

(** Line 231: [(...args) => utils.promisify(old, ...args)]. *)
Definition forward (old : value) (args : list value) : job :=
  promisify_call old args.

(** Calling a member of the unified namespace. *)
Definition invoke (member : value) (args : list value) : option job :=
  match member with
  | VForward old _ => Some (forward old args)
  | _ => None
  end.

(** The promise a caller is owed for "the same result, asynchronously". *)
Definition deferred (c : completion) : promise_state :=
  match c with
  | Returns (Plain v) => Settled (Fulfilled v)
  | Returns (Promise f) => Following f
  | Throws e => Settled (Rejected e)
  end.
End Calls.

(** ** [utils.waitForBody] (lines 61-87) *)

Definition is_loading (s : ready_state) : bool :=
  match s with Loading => true | _ => false end.

Definition waitForBody (timeout : Z) (d : document) : job :=
  match body d with
  | Some b => resolve (Plain (VNode b)) new_Promise
  | None =>
      let '(timeoutId, j) := setTimeout BodyTimedOut (Z.to_N timeout) new_Promise in
      let j := new_MutationObserver (BodyObserver timeoutId) j in
      if is_loading (readyState d) && bool_decide (is_Some (documentElement d))
      then observe j
      else j
  end.

(** [waitForBody()] : the default of the parameter. *)
Definition waitForBody_default : document → job := waitForBody 10000.

(** ** [GM_registerMenuCommand] (lines 124-161) *)

Inductive log_entry :=
  | ConsoleErrorLine (label : string) (error : value).

(** Lines 128-156, run once [await utils.waitForBody()] has produced the
    body; nothing in them throws. *)
Definition register_entry (version caption commandFunc accessKeyArg : value)
  (d : document) : value * document :=
  let '(m, ctx, n) :=
    match gm_menu d with
    | Some m => (m, contextMenu d, next_node d)
    | None =>
        (Menu (next_node d) (Some version) [], Some "gm-registered-menu",
         S (next_node d))
    end in
  let menuItem :=
    MenuItem n caption
      (if to_boolean accessKeyArg then Some accessKeyArg else None)
      [Listener (WrappedCommand commandFunc) true] in
  (VNode n,
   Document (body d) (readyState d) (documentElement d)
            (Some (Menu (menu_node m) (data_gm_version m) (children m ++ [menuItem])))
            ctx (S n)).

(** The async function, given the state [waited] that the promise of
    [utils.waitForBody()] has reached and the document of that moment: its
    own promise, the document it leaves and what it logged. *)
Definition GM_registerMenuCommand (version caption commandFunc accessKeyArg : value)
  (waited : promise_state) (d : document)
  : promise_state * document * list log_entry :=
  match waited with
  | Settled (Fulfilled _) =>
      let '(menuItem, d') := register_entry version caption commandFunc accessKeyArg d in
      (Settled (Fulfilled menuItem), d', [])
  | Settled (Rejected error) =>
      (Settled (Fulfilled VNull), d,
       [ConsoleErrorLine "GM_registerMenuCommand error:" error])
  | Pending | Following _ => (Pending, d, [])
  end.

(** The whole call, from a document [d] through the events [es]. *)
Definition GM_registerMenuCommand_run (version caption commandFunc accessKeyArg : value)
  (d : document) (es : list event) : promise_state * document * list log_entry :=
  GM_registerMenuCommand version caption commandFunc accessKeyArg
    (promise (run (waitForBody_default d) es)) (current d es).

(** ** The click handler (lines 145-153) *)

(** What one run of a listener does: what it throws into the dispatcher, the
    promise it returns, and what it logs and when. *)
Record handled := Handled {
  escaped : option value;
  result : fate;
  logged : list (N * log_entry)
}.

Section Click.
Variable apply : value → list value → completion.

(** [wrappedCommand(...args)] *)
Definition wrappedCommand (commandFunc : value) (args : list value) : handled :=
  match call apply commandFunc args with
  | Throws error =>
      Handled None (Eventually 0 (Fulfilled VUndefined))
              [(0%N, ConsoleErrorLine "Menu command error:" error)]
  | Returns (Plain _) =>
      Handled None (Eventually 0 (Fulfilled VUndefined)) []
  | Returns (Promise Never) =>
      Handled None Never []
  | Returns (Promise (Eventually t (Fulfilled _))) =>
      Handled None (Eventually t (Fulfilled VUndefined)) []
  | Returns (Promise (Eventually t (Rejected error))) =>
      Handled None (Eventually t (Fulfilled VUndefined))
              [(t, ConsoleErrorLine "Menu command error:" error)]
  end.

Definition run_handler (h : handler) (args : list value) : handled :=
  match h with
  | WrappedCommand commandFunc => wrappedCommand commandFunc args
  end.

(** Dispatching one click on an entry: every listener runs; those added
    with [{ once: true }] are removed.  Returns the entry afterwards, the
    functions that were run and what each did. *)
Definition dispatch_click (item : menuitem) (ev : value)
  : menuitem * list (handler * handled) :=
  (MenuItem (item_node item) (textContent item) (accessKey item)
            (filter (λ l, once l = false) (click item)),
   (λ l, (callback l, run_handler (callback l) [ev])) <$> click item).

(** [n] clicks in a row; the runs of all of them. *)
Fixpoint clicks (n : nat) (item : menuitem) (ev : value)
  : menuitem * list (handler * handled) :=
  match n with
  | 0 => (item, [])
  | S n =>
      let '(item', runs) := dispatch_click item ev in
      let '(item'', runs') := clicks n item' ev in
      (item'', (runs ++ runs')%list)
  end.
End Click.

(** ** [GM_getResourceText] (lines 164-184) *)

(** What one pass through the [try] block meets. *)
Inductive attempt :=
  | UrlFails (e : value)       (* [GM.getResourceUrl(resourceId)] throws or rejects *)
  | FetchFails (e : value)     (* [fetch(url)] rejects *)
  | NotOk (status : Z)         (* [response.ok] is false *)
  | TextFails (e : value)      (* [response.text()] rejects *)
  | Text (t : string).

Inductive effect :=
  | Tried (resourceId : value)  (* one pass through the [try] block *)
  | Slept (ms : Z)              (* [await new Promise(r => setTimeout(r, ms))] *)
  | Logged (l : log_entry).

(** The [try] block: the text, or the error that reaches [catch]. *)
Definition try_fetch (a : attempt) : string + value :=
  match a with
  | UrlFails e | FetchFails e | TextFails e => inr e
  | NotOk status => inr (VError ("HTTP error! status: " ++ pretty status))
  | Text t => inl t
  end.

Section Resource.
(** What the [n]-th pass (from 0) for a resource meets. *)
Variable net : value → nat → attempt.

(** The [while] loop, [tries] passes already made.  [fuel] bounds the
    number of passes; [None] when it runs out.  The bound [maxRetries] is an
    integer, as its default 3 is: what the loop does at a bound that is not
    an integer is not modelled. *)
Fixpoint retry (fuel : nat) (resourceId : value) (maxRetries attempts : Z)
  (tries : nat) : option (settlement * list effect) :=
  if (attempts <? maxRetries)%Z then
    match fuel with
    | 0 => None
    | S fuel =>
        match try_fetch (net resourceId tries) with
        | inl text => Some (Fulfilled (VStr text), [Tried resourceId])
        | inr error =>
            let attempts := (attempts + 1)%Z in
            if (attempts =? maxRetries)%Z then
              Some (Fulfilled VNull,
                    [Tried resourceId;
                     Logged (ConsoleErrorLine "GM_getResourceText final error:" error)])
            else
              match retry fuel resourceId maxRetries attempts (S tries) with
              | Some (r, effs) =>
                  Some (r, Tried resourceId :: Slept (2 ^ attempts * 1000) :: effs)
              | None => None
              end
        end
    end
  else Some (Fulfilled VUndefined, []).

Definition GM_getResourceText (resourceId : value) (maxRetries : Z)
  : option (settlement * list effect) :=
  retry (Z.to_nat maxRetries) resourceId maxRetries 0 0.

(** [GM_getResourceText(resourceId)]: [maxRetries = 3]. *)
Definition GM_getResourceText_default (resourceId : value) :=
  GM_getResourceText resourceId 3.
End Resource.

Definition tries_of (effs : list effect) : nat :=
  length (omap (λ e, match e with Tried r => Some r | _ => None end) effs).

Definition delays_of (effs : list effect) : list Z :=
  omap (λ e, match e with Slept ms => Some ms | _ => None end) effs.

(* ================================================================== *)
(** * Concrete worlds used below *)

(** [GM[k]] as a binding: [None] when the namespace or the name is missing. *)
Definition GM_lookup (r : realm) (k : string) : option value :=
  GM r ≫= (.!! k).

(** A host that seeded [GM.notification] with the sentinel [null] and
    provides [GM_notification]. *)
Definition seeded_realm : realm :=
  {| window := <["GM_notification" := VHost "GM_notification"]>
                 (<["GM_info" := VObject 0]> ∅);
     GM := Some (<["notification" := VNull]> ∅);
     fresh := 1 |}.

(** A page whose host seeded [GM.log] with a truthy sentinel and defines
    [GM_getValue]. *)
Definition legacy_realm : realm :=
  {| window := <["GM_getValue" := VHost "GM_getValue"]> (<["GM_info" := VObject 0]> ∅);
     GM := Some (<["log" := VStr "sentinel"]> ∅);
     fresh := 1 |}.

(** A host with a native [GM.registerMenuCommand] and no legacy functions. *)
Definition native_realm : realm :=
  {| window := <["GM_info" := VObject 0]> ∅;
     GM := Some (<["registerMenuCommand" := VHost "GM.registerMenuCommand"]> ∅);
     fresh := 1 |}.

(** A host with nothing but [GM_info]. *)
Definition bare_realm : realm :=
  {| window := <["GM_info" := VObject 0]> ∅; GM := None; fresh := 1 |}.

(** A host that bound [GM_setClipboard] to [null]. *)
Definition null_realm : realm :=
  {| window := <["GM_setClipboard" := VNull]> (<["GM_info" := VObject 0]> ∅);
     GM := None; fresh := 1 |}.

(** What is left of a run, for evaluating examples. *)
Definition installed (r : realm) : realm :=
  match install r with Done r' => r' | Raised _ => r end.

(** A host function that returns its first argument. *)
Definition first_argument (fn : value) (args : list value) : completion :=
  Returns (Plain (default VUndefined (head args))).

(** A function that returns a promise which never settles, such as
    [() => new Promise(() => {})]. *)
Definition hangs (fn : value) (args : list value) : completion :=
  Returns (Promise Never).

(** A command that throws. *)
Definition throws (fn : value) (args : list value) : completion :=
  Throws (VError "boom").

Definition no_strings (s : string) : Z := 0.

(** A document that is still loading, without its body. *)
Definition loading_document : document :=
  Document None Loading (Some 1) None None 10.

(** A document that has finished loading and has no body (yet). *)
Definition bodiless_document : document :=
  Document None Complete (Some 1) None None 10.

Definition with_body (b : nat) (d : document) : document :=
  Document (Some b) (readyState d) (documentElement d) (gm_menu d)
           (contextMenu d) (next_node d).

(** No change of the document in [es] brings a body. *)
Definition no_body (es : list event) : Prop :=
  Forall (λ e, match e with Mutate d => body d = None | Advance _ => True end) es.

(** ** The claims that fail, as they are worded *)

(** "Every binding that exists before installation is the same afterwards." *)
Definition never_overwrites (r r' : realm) : Prop :=
  (∀ k v, GM_lookup r k = Some v → GM_lookup r' k = Some v) ∧
  (∀ k v, window r !! k = Some v → window r' !! k = Some v).

(** "Every legacy name left undefined for which a polyfill exists is
    forwarded, under its unified name, to the polyfill." *)
Definition polyfills_forwarded (r r' : realm) : Prop :=
  ∀ p newKey,
    (polyfill_key p, newKey) ∈ promiseMappings →
    typeof_undefined (get (window r) (polyfill_key p)) = true →
    ∃ o o', GM_lookup r' newKey = Some (VForward (VPolyfill p o) o').

(** "With the body absent at call time, the waiter resolves exactly once,
    the first time the body appears, and deregisters its observer." *)
Definition resolves_when_body_appears (d0 : document) : Prop :=
  body d0 = None →
  ∀ pre d b, no_body pre → body d = Some b →
    let j := run (waitForBody_default d0) (pre ++ [Mutate d]) in
    promise j = Settled (Fulfilled (VNode b)) ∧ resolve_calls j = 1 ∧
    observing j = false.

(** "Calling the forwarding function with [args] gives, asynchronously, what
    calling the legacy function with [args] gives." *)
Definition forwards_faithfully (apply : value → list value → completion)
  (StringToNumber : string → Z) (old : value) (args : list value) : Prop :=
  promise (forward apply StringToNumber old args) = deferred (call apply old args).

(** The last entry of the shared menu. *)
Definition last_entry (d : document) : option menuitem :=
  gm_menu d ≫= λ m, last (children m).

Definition fails (a : attempt) : Prop :=
  match a with Text _ => False | _ => True end.

(** ** The states a waiter goes through *)

(** Waiting: the timer has [ms_left] ms to go; [obs] tells whether the observer
    is registered. *)
Definition armed (ms_left : N) (obs : bool) : job :=
  Job Pending [(0, ms_left, BodyTimedOut)] 1 (Some (BodyObserver 0, obs)) 0 0.

(** Resolved with the body by the observer. *)
Definition body_found (b : nat) : job :=
  Job (Settled (Fulfilled (VNode b))) [] 1 (Some (BodyObserver 0, false)) 1 0.

(** Rejected by the timer. *)
Definition timed_out : job :=
  Job (Settled (Rejected (VError "Timeout waiting for body"))) [] 1
      (Some (BodyObserver 0, false)) 0 1.

(* ================================================================== *)
(** * More of the canonical script *)

(** ** Several registrations in a row *)

(** One caller of [GM_registerMenuCommand]: caption, command, access key. *)
Definition registration : Type := value * value * value.

(** The document after the entries of [cmds] were registered, in order. *)
Definition register_all (version : value) (cmds : list registration)
  (d : document) : document :=
  foldl (λ d c, (register_entry version c.1.1 c.1.2 c.2 d).2) d cmds.

(** The entry a registration makes, at node [n]. *)
Definition entry_of (n : nat) (c : registration) : menuitem :=
  MenuItem n c.1.1 (if to_boolean c.2 then Some c.2 else None)
           [Listener (WrappedCommand c.1.2) true].

(** ** The waits of [GM_getResourceText] *)

(** [Math.pow(2, attempts) * 1000] *)
Definition backoff (attempts : nat) : Z := 2 ^ Z.of_nat attempts * 1000.


(** ** [GM_addStyle] (lines 106-121) *)

Record style_element := StyleElement {
  style_node : nat;
  style_type : string;             (* [style.type] *)
  data_source : option string;     (* the attribute [data-source] *)
  style_text : value               (* what was assigned to [style.textContent] *)
}.

(** The part of the page [GM_addStyle] looks at and writes. *)
Record page_head := PageHead {
  head : option nat;                       (* [document.head] *)
  head_by_tag : option nat;                (* [document.getElementsByTagName('head')[0]] *)
  appended : list (nat * style_element);   (* the calls [parent.appendChild(child)], oldest first *)
  next_element : nat                       (* identity of the next created element *)
}.

(** [document.head || document.getElementsByTagName('head')[0]] *)
Definition find_head (p : page_head) : option nat :=
  match head p with
  | Some h => Some h
  | None => head_by_tag p
  end.

(** The result, the page afterwards and what was logged. *)
Definition GM_addStyle (css : value) (p : page_head)
  : value * page_head * list log_entry :=
  match find_head p with
  | None =>
      (VNull, p,
       [ConsoleErrorLine "GM_addStyle error:" (VError "Unable to find document head")])
  | Some h =>
      let style := StyleElement (next_element p) "text/css" (Some "GM_addStyle") css in
      (VNode (style_node style),
       PageHead (head p) (head_by_tag p) (appended p ++ [(h, style)])
                (S (next_element p)),
       [])
  end.

(** The page after [GM_addStyle] was called with each of [sheets], in order. *)
Definition add_styles (sheets : list value) (p : page_head) : page_head :=
  foldl (λ p css, (GM_addStyle css p).1.2) p sheets.

(** ** [utils.debounce] (lines 94-100) *)

(** The state shared by the calls of one debounced function: the variable
    [timeoutId], the timers it has set that have not run, and the calls
    [fn.apply(this, args)] made so far. *)
Record debouncer := Debouncer {
  timeoutId : option nat;
  waiting : list (nat * N * list value);   (* id, milliseconds left, the [args] closed over *)
  next_id : nat;
  applied : list (list value)              (* oldest first *)
}.

(** [debounce(fn, delay)]: [let timeoutId;] and the closure. *)
Definition debounce : debouncer := Debouncer None [] 0 [].

(** One call of the closure:
    [clearTimeout(timeoutId); timeoutId = setTimeout(() => fn.apply(this, args), delay)] *)
Definition debounced (delay : N) (args : list value) (s : debouncer) : debouncer :=
  let cleared :=
    match timeoutId s with
    | Some id => filter (λ t, t.1.1 ≠ id) (waiting s)
    | None => waiting s
    end in
  Debouncer (Some (next_id s)) (cleared ++ [(next_id s, delay, args)])
            (S (next_id s)) (applied s).

(** [ms] milliseconds pass: the timers that are due call [fn]. *)
Definition debounce_advance (ms : N) (s : debouncer) : debouncer :=
  Debouncer (timeoutId s)
    ((λ t, (t.1.1, (t.1.2 - ms)%N, t.2)) <$> filter (λ t, (ms < t.1.2)%N) (waiting s))
    (next_id s)
    (applied s ++ (snd <$> filter (λ t, (t.1.2 ≤ ms)%N) (waiting s))).

Inductive debounce_event :=
  | Call (args : list value)
  | Wait (ms : N).

Definition debounce_step (delay : N) (s : debouncer) (e : debounce_event) : debouncer :=
  match e with
  | Call args => debounced delay args s
  | Wait ms => debounce_advance ms s
  end.

Definition debounce_run (delay : N) (es : list debounce_event) : debouncer :=
  foldl (debounce_step delay) debounce es.

(** The arguments of the calls of the closure in [es], in order. *)
Definition calls_of (es : list debounce_event) : list (list value) :=
  omap (λ e, match e with Call args => Some args | Wait _ => None end) es.

(** Calls that follow each other, each after the wait given with it. *)
Definition burst (b : list (list value * N)) : list debounce_event :=
  flat_map (λ c, [Call c.1; Wait c.2]) b.

(* ================================================================== *)
(** * The second script of [src/gm4-polyfill.js] (lines 246-396)

    The same installer without timeouts: [promisify(fn, ...args)] has no
    [timeout] parameter, [waitForBody()] has no deadline, the namespace is
    created empty and only [log] and [info] are aliased. *)

Module SecondScript.

(** [Object.entries(directMappings)] (lines 354-357). *)
Definition directMappings (info : value) (n : nat) : list (string * value) :=
  [ ("log", VBound ConsoleLog n);
    ("info", info) ].

(** [Object.entries(promiseMappings)] (lines 367-380). *)
Definition promiseMappings : list (string * string) :=
  [ ("GM_addStyle", "addStyle");
    ("GM_deleteValue", "deleteValue");
    ("GM_getResourceURL", "getResourceUrl");
    ("GM_getValue", "getValue");
    ("GM_listValues", "listValues");
    ("GM_notification", "notification");
    ("GM_openInTab", "openInTab");
    ("GM_registerMenuCommand", "registerMenuCommand");
    ("GM_setClipboard", "setClipboard");
    ("GM_setValue", "setValue");
    ("GM_xmlhttpRequest", "xmlHttpRequest");
    ("GM_getResourceText", "getResourceText") ].

(** The whole script: the realm it leaves and the exception it ends with, if
    any.  [window.GM = {}] (lines 250-252) comes before [GM_info] is read
    (line 356), so an undeclared [GM_info] leaves the empty namespace
    behind. *)
Definition install (r : realm) : realm * option value :=
  let g0 := match GM r with Some g => g | None => ∅ end in
  let pf := polyfills (fresh r) in
  let n1 := fresh r + 3 in
  match global (window r) "GM_info" with
  | Raised e => (Realm (window r) (Some g0) (S n1), Some e)
  | Done info =>
      let dm := directMappings info n1 in
      let n2 := S n1 in
      let g1 := foldl direct_step g0 dm in
      let w1 := foldl polyfill_step (window r) pf in
      let '(g2, n3) := foldl (promise_step w1) (g1, n2) promiseMappings in
      (Realm w1 (Some g2) n3, None)
  end.

Section Calls.
Variable apply : value → list value → completion.

(** Lines 262-270. *)
Definition promisify (fn : value) (args : list value) : job :=
  match call apply fn args with
  | Returns result => resolve result new_Promise
  | Throws error => reject error new_Promise
  end.

(** Line 393: [(...args) => utils.promisify(old, ...args)]. *)
Definition forward (old : value) (args : list value) : job :=
  promisify old args.

Definition invoke (member : value) (args : list value) : option job :=
  match member with
  | VForward old _ => Some (forward old args)
  | _ => None
  end.
End Calls.

(** The promise of [waitForBody()] (lines 276-292) and its observer: there is
    no timer and no [reject]. *)
Record waiter := Waiter {
  resolved : option value;     (* the value the promise was resolved with *)
  observes : bool;             (* the observer is registered on the root *)
  resolves : nat               (* calls of [resolve] *)
}.

Definition waitForBody (d : document) : waiter :=
  match body d with
  | Some b => Waiter (Some (VNode b)) false 1
  | None =>
      if is_loading (readyState d) && bool_decide (is_Some (documentElement d))
      then Waiter None true 0
      else Waiter None false 0
  end.

(** The observer's callback:
    [if (document.body) { observer.disconnect(); resolve(document.body) }] *)
Definition notify (d : document) (w : waiter) : waiter :=
  if observes w then
    match body d with
    | Some b =>
        Waiter (match resolved w with None => Some (VNode b) | v => v end)
               false (S (resolves w))
    | None => w
    end
  else w.

Definition run (w : waiter) (es : list event) : waiter :=
  foldl (λ w e, match e with Mutate d => notify d w | Advance _ => w end) w es.

End SecondScript.

(* ================================================================== *)
(** * The installer of [src/unnamed/part_000]

    The same tables as the second script; a slot of the namespace counts as
    taken when [typeof GM[newKey] !== 'undefined']. *)

Module UnnamedPart.

(** Body of the [forEach] of lines 120-124. *)
Definition direct_step (g : gmap string value) (e : string * value)
  : gmap string value :=
  let '(newKey, old) := e in
  if to_boolean old && typeof_undefined (get g newKey)
  then <[newKey := old]> g
  else g.

(** Body of the [forEach] of lines 150-155. *)
Definition promise_step (w : gmap string value) (st : gmap string value * nat)
  (e : string * string) : gmap string value * nat :=
  let '(oldKey, newKey) := e in
  let '(g, n) := st in
  let old := get w oldKey in
  if to_boolean old && typeof_undefined (get g newKey)
  then (<[newKey := VForward old n]> g, S n)
  else (g, n).

(** The whole script; [GM r = None] stands for [typeof GM === 'undefined']. *)
Definition install (r : realm) : realm * option value :=
  let g0 := match GM r with Some g => g | None => ∅ end in
  let pf := polyfills (fresh r) in
  let n1 := fresh r + 3 in
  match global (window r) "GM_info" with
  | Raised e => (Realm (window r) (Some g0) (S n1), Some e)
  | Done info =>
      let dm := SecondScript.directMappings info n1 in
      let n2 := S n1 in
      let g1 := foldl direct_step g0 dm in
      let w1 := foldl polyfill_step (window r) pf in
      let '(g2, n3) := foldl (promise_step w1) (g1, n2) SecondScript.promiseMappings in
      (Realm w1 (Some g2) n3, None)
  end.

End UnnamedPart.

(* ================================================================== *)
(** * Properties of the installer *)

Section Installer.
Implicit Types (g w : gmap string value) (k : string) (v : value).

Lemma get_Some g k v : g !! k = Some v → get g k = v.
Proof. unfold get. by intros ->. Qed.

Lemma get_insert_eq g k v : get (<[k := v]> g) k = v.
Proof. unfold get. by rewrite lookup_insert_eq. Qed.

Lemma get_insert_ne g k k' v : k ≠ k' → get (<[k := v]> g) k' = get g k'.
Proof. unfold get. intros. by rewrite lookup_insert_ne. Qed.

(** *** The direct loop only fills falsy slots *)

Lemma direct_step_keeps g e k v :
  g !! k = Some v → to_boolean v = true → direct_step g e !! k = Some v.
Proof.
  destruct e as [newKey old]. intros Hk Hv. unfold direct_step.
  destruct (decide (newKey = k)) as [->|Hne].
  - rewrite (get_Some _ _ _ Hk), Hv, andb_false_r. exact Hk.
  - destruct (_ && _); [by rewrite lookup_insert_ne | done].
Qed.

Lemma direct_loop_keeps l g k v :
  g !! k = Some v → to_boolean v = true → foldl direct_step g l !! k = Some v.
Proof.
  revert g. induction l as [|e l IH]; intros g Hk Hv; [done|].
  simpl. apply IH; [by apply direct_step_keeps | done].
Qed.

Lemma direct_step_other g newKey old k :
  newKey ≠ k → direct_step g (newKey, old) !! k = g !! k.
Proof.
  intros Hne. unfold direct_step.
  destruct (_ && _); [by rewrite lookup_insert_ne | done].
Qed.

Lemma direct_loop_other l g k :
  k ∉ l.*1 → foldl direct_step g l !! k = g !! k.
Proof.
  revert g. induction l as [|[newKey old] l IH]; intros g Hk; [done|].
  simpl in *. apply not_elem_of_cons in Hk as [Hne Hk].
  rewrite IH by done. by apply direct_step_other.
Qed.

Lemma truthy_lookup g k :
  to_boolean (get g k) = true → ∃ v, g !! k = Some v ∧ to_boolean v = true.
Proof.
  unfold get. destruct (g !! k) as [v|]; simpl; [eauto | done].
Qed.

Lemma direct_step_truthy g e k :
  to_boolean (get g k) = true → to_boolean (get (direct_step g e) k) = true.
Proof.
  intros (v & Hk & Hv)%truthy_lookup.
  by rewrite (get_Some _ _ _ (direct_step_keeps g e k v Hk Hv)).
Qed.

Lemma direct_loop_truthy l g k :
  to_boolean (get g k) = true → to_boolean (get (foldl direct_step g l) k) = true.
Proof.
  intros (v & Hk & Hv)%truthy_lookup.
  by rewrite (get_Some _ _ _ (direct_loop_keeps l g k v Hk Hv)).
Qed.

(** After the loop every alias with a truthy source is bound to a truthy
    value. *)
Lemma direct_loop_fills l g newKey old :
  (newKey, old) ∈ l → to_boolean old = true →
  to_boolean (get (foldl direct_step g l) newKey) = true.
Proof.
  revert g. induction l as [|e l IH]; intros g Hin Hold.
  - by apply elem_of_nil in Hin.
  - apply elem_of_cons in Hin as [<-|Hin]; [|by apply IH].
    cbn [foldl]. apply direct_loop_truthy. unfold direct_step.
    rewrite Hold. cbn [andb].
    destruct (to_boolean (get g newKey)) eqn:E; simpl; [done|].
    by rewrite get_insert_eq.
Qed.

Lemma direct_loop_noop l g :
  (∀ newKey old, (newKey, old) ∈ l → to_boolean old = true →
                 to_boolean (get g newKey) = true) →
  foldl direct_step g l = g.
Proof.
  induction l as [|[newKey old] l IH]; intros H; [done|].
  cbn [foldl]. assert (direct_step g (newKey, old) = g) as ->.
  { unfold direct_step. destruct (to_boolean old) eqn:E; [|done].
    rewrite (H newKey old); [done | by left | done]. }
  apply IH. intros ???. apply H. by right.
Qed.

(** *** The polyfill loop only fills slots that read [undefined] *)

Lemma polyfill_step_keeps w e k v :
  w !! k = Some v → v ≠ VUndefined → polyfill_step w e !! k = Some v.
Proof.
  destruct e as [key impl]. intros Hk Hv. unfold polyfill_step.
  destruct (decide (key = k)) as [->|Hne].
  - rewrite (get_Some _ _ _ Hk). by destruct v.
  - destruct (typeof_undefined _); [by rewrite lookup_insert_ne | done].
Qed.

Lemma polyfill_loop_keeps l w k v :
  w !! k = Some v → v ≠ VUndefined → foldl polyfill_step w l !! k = Some v.
Proof.
  revert w. induction l as [|e l IH]; intros w Hk Hv; [done|].
  simpl. apply IH; [by apply polyfill_step_keeps | done].
Qed.

Lemma polyfill_loop_other l w k :
  k ∉ l.*1 → foldl polyfill_step w l !! k = w !! k.
Proof.
  revert w. induction l as [|[key impl] l IH]; intros w Hk; [done|].
  simpl in *. apply not_elem_of_cons in Hk as [Hne Hk].
  rewrite IH by done. unfold polyfill_step.
  destruct (typeof_undefined _); [by rewrite lookup_insert_ne | done].
Qed.

Lemma defined_lookup w k :
  typeof_undefined (get w k) = false → ∃ v, w !! k = Some v ∧ v ≠ VUndefined.
Proof.
  unfold get. destruct (w !! k) as [v|]; simpl; [|done].
  intros H. exists v. split; [done|]. by intros ->.
Qed.

Lemma polyfill_loop_defined l w k :
  typeof_undefined (get w k) = false →
  typeof_undefined (get (foldl polyfill_step w l) k) = false.
Proof.
  intros (v & Hk & Hv)%defined_lookup.
  rewrite (get_Some _ _ _ (polyfill_loop_keeps l w k v Hk Hv)). by destruct v.
Qed.

Lemma polyfill_loop_fills l w key impl :
  (key, impl) ∈ l → impl ≠ VUndefined →
  typeof_undefined (get (foldl polyfill_step w l) key) = false.
Proof.
  revert w. induction l as [|e l IH]; intros w Hin Himpl.
  - by apply elem_of_nil in Hin.
  - apply elem_of_cons in Hin as [<-|Hin]; [|by apply IH].
    cbn [foldl]. apply polyfill_loop_defined. unfold polyfill_step.
    destruct (typeof_undefined (get w key)) eqn:E; [|done].
    rewrite get_insert_eq. by destruct impl.
Qed.

Lemma polyfill_loop_noop l w :
  (∀ key impl, (key, impl) ∈ l → typeof_undefined (get w key) = false) →
  foldl polyfill_step w l = w.
Proof.
  induction l as [|[key impl] l IH]; intros H; [done|].
  cbn [foldl]. assert (polyfill_step w (key, impl) = w) as ->.
  { unfold polyfill_step. rewrite (H key impl); [done | by left]. }
  apply IH. intros ???. eapply H. by right.
Qed.

(** *** The forwarding loop only fills falsy slots of the namespace *)

Lemma promise_step_keeps w st e k v :
  st.1 !! k = Some v → to_boolean v = true →
  (promise_step w st e).1 !! k = Some v.
Proof.
  destruct e as [oldKey newKey], st as [g n]. intros Hk Hv.
  unfold promise_step. cbn [fst] in *.
  destruct (decide (newKey = k)) as [->|Hne].
  - by rewrite (get_Some _ _ _ Hk), Hv, andb_false_r.
  - destruct (_ && _); cbn [fst]; [by rewrite lookup_insert_ne | done].
Qed.

Lemma promise_loop_keeps w l st k v :
  st.1 !! k = Some v → to_boolean v = true →
  (foldl (promise_step w) st l).1 !! k = Some v.
Proof.
  revert st. induction l as [|e l IH]; intros st Hk Hv; [done|].
  cbn [foldl]. apply IH; [by apply promise_step_keeps | done].
Qed.

Lemma promise_loop_other w l st k :
  k ∉ l.*2 → (foldl (promise_step w) st l).1 !! k = st.1 !! k.
Proof.
  revert st. induction l as [|[oldKey newKey] l IH]; intros [g n] Hk; [done|].
  cbn [foldl]. cbn in Hk. apply not_elem_of_cons in Hk as [Hne Hk].
  rewrite IH by done. unfold promise_step.
  destruct (_ && _); cbn [fst]; [by rewrite lookup_insert_ne | done].
Qed.

Lemma promise_loop_truthy w l st k :
  to_boolean (get st.1 k) = true →
  to_boolean (get (foldl (promise_step w) st l).1 k) = true.
Proof.
  intros (v & Hk & Hv)%truthy_lookup.
  by rewrite (get_Some _ _ _ (promise_loop_keeps w l st k v Hk Hv)).
Qed.

Lemma promise_loop_fills w l st oldKey newKey :
  (oldKey, newKey) ∈ l → to_boolean (get w oldKey) = true →
  to_boolean (get (foldl (promise_step w) st l).1 newKey) = true.
Proof.
  revert st. induction l as [|e l IH]; intros [g n] Hin Hold.
  - by apply elem_of_nil in Hin.
  - apply elem_of_cons in Hin as [<-|Hin]; [|by apply IH].
    cbn [foldl]. apply promise_loop_truthy. unfold promise_step.
    rewrite Hold. cbn [andb].
    destruct (to_boolean (get g newKey)) eqn:E; cbn [negb fst]; [done|].
    by rewrite get_insert_eq.
Qed.

Lemma promise_loop_noop w l g n :
  (∀ oldKey newKey, (oldKey, newKey) ∈ l → to_boolean (get w oldKey) = true →
                    to_boolean (get g newKey) = true) →
  foldl (promise_step w) (g, n) l = (g, n).
Proof.
  induction l as [|[oldKey newKey] l IH]; intros H; [done|].
  cbn [foldl]. assert (promise_step w (g, n) (oldKey, newKey) = (g, n)) as ->.
  { unfold promise_step. destruct (to_boolean (get w oldKey)) eqn:E; [|done].
    rewrite (H oldKey newKey); [done | by left | done]. }
  apply IH. intros ???. apply H. by right.
Qed.

(** A pair whose legacy value is truthy and whose unified name is falsy gets
    a forwarding function that closes over the legacy value. *)
Lemma promise_loop_installs w l st oldKey newKey :
  NoDup l.*2 → (oldKey, newKey) ∈ l →
  to_boolean (get w oldKey) = true → to_boolean (get st.1 newKey) = false →
  ∃ o, (foldl (promise_step w) st l).1 !! newKey = Some (VForward (get w oldKey) o).
Proof.
  revert st. induction l as [|[oldKey' newKey'] l IH]; intros [g n] Hnd Hin Hold Hnew.
  - by apply elem_of_nil in Hin.
  - cbn in Hnd. apply NoDup_cons in Hnd as [Hfirst Hnd].
    cbn [fst] in Hnew. cbn [foldl].
    apply elem_of_cons in Hin as [Heq|Hin].
    + injection Heq as <- <-. exists n.
      apply promise_loop_keeps; [|done].
      unfold promise_step. rewrite Hold, Hnew. cbn [andb negb fst].
      by rewrite lookup_insert_eq.
    + assert (newKey' ≠ newKey) as Hne.
      { intros ->. apply Hfirst. apply list_elem_of_fmap. by exists (oldKey, newKey). }
      apply IH; [done..|].
      unfold promise_step. destruct (_ && _); cbn [fst]; [|done].
      by rewrite get_insert_ne.
Qed.

Lemma promiseMappings_NoDup_unified : NoDup promiseMappings.*2.
Proof. compute_done. Qed.

Lemma promiseMappings_NoDup_legacy : NoDup promiseMappings.*1.
Proof. compute_done. Qed.

(** *** A successful run, taken apart *)

Lemma install_Done r r' :
  install r = Done r' →
  ∃ info g0 n0,
    window r !! "GM_info" = Some info ∧
    init_GM r = Done (g0, n0) ∧
    window r' = foldl polyfill_step (window r) (polyfills n0) ∧
    GM r' = Some (foldl (promise_step (window r'))
                    (foldl direct_step g0 (directMappings info (n0 + 3 )), n0 + 3 + 3)
                    promiseMappings).1.
Proof.
  unfold install. destruct (init_GM r) as [[g0 n0]|] eqn:Hinit; [|done].
  unfold global. destruct (window r !! "GM_info") as [info|] eqn:Hinfo; [|done].
  destruct (foldl _ _ promiseMappings) as [g2 n3] eqn:Hloop.
  intros [= <-]. exists info, g0, n0.
  split_and!; [reflexivity..|].
  change (Some g2 = Some (foldl (promise_step (foldl polyfill_step (window r) (polyfills n0)))
    (foldl direct_step g0 (directMappings info (n0 + 3)), n0 + 3 + 3) promiseMappings).1).
  by rewrite Hloop.
Qed.

(** The script runs to completion exactly when [GM_info] is declared. *)
Lemma install_total r :
  is_Some (window r !! "GM_info") → ∃ r', install r = Done r'.
Proof.
  intros [info Hinfo]. unfold install, init_GM, global. rewrite Hinfo.
  destruct (GM r); [|destruct (to_boolean info)];
    destruct (foldl _ _ promiseMappings); eauto.
Qed.

Lemma init_GM_Some r g : GM r = Some g → init_GM r = Done (g, fresh r).
Proof. unfold init_GM. by intros ->. Qed.



(** *** Keys of the three tables are apart *)

Lemma unified_not_direct oldKey newKey info n :
  (oldKey, newKey) ∈ promiseMappings → newKey ∉ (directMappings info n).*1.
Proof.
  intros Hin.
  assert (Forall (λ p, p.2 ∉ ["log"; "info"; "error"; "warn"]) promiseMappings) as H
    by compute_done.
  rewrite Forall_forall in H. exact (H _ Hin).
Qed.

Lemma unified_not_initial oldKey newKey :
  (oldKey, newKey) ∈ promiseMappings → newKey ≠ "info" ∧ newKey ≠ "version".
Proof.
  intros Hin.
  assert (Forall (λ p, p.2 ≠ "info" ∧ p.2 ≠ "version") promiseMappings) as H
    by compute_done.
  rewrite Forall_forall in H. exact (H _ Hin).
Qed.

Lemma NoDup_snd_inj {A B} (l : list (A * B)) a a' b :
  NoDup l.*2 → (a, b) ∈ l → (a', b) ∈ l → a = a'.
Proof.
  induction l as [|[x y] l IH]; intros Hnd Ha Ha'.
  - by apply elem_of_nil in Ha.
  - cbn in Hnd. apply NoDup_cons in Hnd as [Hfirst Hnd].
    apply elem_of_cons in Ha as [Ha|Ha], Ha' as [Ha'|Ha'].
    + congruence.
    + injection Ha as -> ->. exfalso. apply Hfirst.
      apply list_elem_of_fmap. by exists (a', y).
    + injection Ha' as -> ->. exfalso. apply Hfirst.
      apply list_elem_of_fmap. by exists (a, y).
    + by apply IH.
Qed.

(** A unified name none of whose legacy sources is truthy is left alone. *)
Lemma promise_loop_skips w l st k :
  (∀ oldKey, (oldKey, k) ∈ l → to_boolean (get w oldKey) = false) →
  (foldl (promise_step w) st l).1 !! k = st.1 !! k.
Proof.
  revert st. induction l as [|[oldKey newKey] l IH]; intros [g n] H; [done|].
  cbn [foldl]. rewrite IH by (intros ??; apply H; by right).
  unfold promise_step. destruct (decide (newKey = k)) as [->|Hne].
  - rewrite (H oldKey) by by left. done.
  - destruct (_ && _); cbn [fst]; [by rewrite lookup_insert_ne | done].
Qed.

Lemma polyfill_loop_installs l w key impl :
  NoDup l.*1 → (key, impl) ∈ l → typeof_undefined (get w key) = true →
  impl ≠ VUndefined →
  foldl polyfill_step w l !! key = Some impl.
Proof.
  revert w. induction l as [|[key' impl'] l IH]; intros w Hnd Hin Hu Himpl.
  - by apply elem_of_nil in Hin.
  - cbn in Hnd. apply NoDup_cons in Hnd as [Hfirst Hnd]. cbn [foldl].
    apply elem_of_cons in Hin as [Heq|Hin].
    + injection Heq as <- <-. apply polyfill_loop_keeps; [|done].
      unfold polyfill_step. by rewrite Hu, lookup_insert_eq.
    + assert (key' ≠ key) as Hne.
      { intros ->. apply Hfirst. apply list_elem_of_fmap. by exists (key, impl). }
      apply IH; [done..| |done].
      unfold polyfill_step. destruct (typeof_undefined (get w key')); [|done].
      by rewrite get_insert_ne.
Qed.

Lemma polyfills_keys n : (polyfills n).*1 = polyfill_key <$> [PAddStyle; PRegisterMenuCommand; PGetResourceText].
Proof. reflexivity. Qed.

Lemma polyfills_NoDup n : NoDup (polyfills n).*1.
Proof. rewrite polyfills_keys. compute_done. Qed.

Lemma polyfills_elem p n :
  ∃ o, (polyfill_key p, VPolyfill p o) ∈ polyfills n.
Proof.
  destruct p; [exists n | exists (n + 1) | exists (n + 2)]; unfold polyfills;
    repeat first [apply list_elem_of_here | apply list_elem_of_further].
Qed.

Lemma polyfills_same_keys n n' key impl :
  (key, impl) ∈ polyfills n →
  ∃ impl', (key, impl') ∈ polyfills n' ∧ impl' ≠ VUndefined.
Proof.
  unfold polyfills. intros Hin.
  repeat (apply elem_of_cons in Hin as [[= -> ->]|Hin];
          [eexists; split;
           [repeat first [apply list_elem_of_here | apply list_elem_of_further]
           |discriminate]|]).
  by apply elem_of_nil in Hin.
Qed.

Lemma directMappings_same_keys info n n' newKey old :
  (newKey, old) ∈ directMappings info n → to_boolean old = true →
  ∃ old', (newKey, old') ∈ directMappings info n' ∧ to_boolean old' = true.
Proof.
  unfold directMappings. intros Hin Hold.
  repeat (apply elem_of_cons in Hin as [[= -> ->]|Hin];
          [eexists; split;
           [repeat first [apply list_elem_of_here | apply list_elem_of_further]
           |first [exact Hold | reflexivity]]|]).
  by apply elem_of_nil in Hin.
Qed.

Lemma GM_info_not_polyfill n : "GM_info" ∉ (polyfills n).*1.
Proof. rewrite polyfills_keys. compute_done. Qed.

(** The namespace the loops start from reads like the one that was there. *)
Lemma init_GM_lookup r g0 n0 k :
  init_GM r = Done (g0, n0) → k ≠ "info" → k ≠ "version" →
  g0 !! k = GM_lookup r k.
Proof.
  unfold init_GM, GM_lookup, global. destruct (GM r) as [g|]; cbn.
  - by intros [= <- _].
  - destruct (window r !! "GM_info") as [i|]; [|done].
    destruct (to_boolean i); intros [= <- _] ??;
      by rewrite !lookup_insert_ne, lookup_empty.
Qed.

Lemma init_GM_keeps r g0 n0 k v :
  init_GM r = Done (g0, n0) → GM_lookup r k = Some v → g0 !! k = Some v.
Proof.
  unfold init_GM, GM_lookup. destruct (GM r) as [g|]; cbn; [|done].
  by intros [= <- _].
Qed.

Lemma GM_lookup_Some r g k : GM r = Some g → GM_lookup r k = g !! k.
Proof. unfold GM_lookup. by intros ->. Qed.
End Installer.

(* ================================================================== *)
(** * Monotonic and idempotent installation *)

Section Monotonic.
Implicit Types (r : realm) (k : string) (v : value).

(** C2, as worded, fails: the sentinel [null] seeded under
    [GM.notification] is replaced by a forwarding function. *)
Lemma install_overwrites_falsy_sentinel :
  install seeded_realm = Done (installed seeded_realm) ∧
  GM_lookup seeded_realm "notification" = Some VNull ∧
  GM_lookup (installed seeded_realm) "notification"
    = Some (VForward (VHost "GM_notification") 8) ∧
  ¬ never_overwrites seeded_realm (installed seeded_realm).
Proof.
  split_and!; [reflexivity..|].
  intros [H _]. specialize (H "notification" VNull eq_refl).
  vm_compute in H. discriminate H.
Qed.

(** C2, amended: every name bound to a truthy value on the unified
    namespace, and every name bound on the legacy surface to a value other
    than [undefined], has the same binding after installation. *)
Theorem install_keeps_bindings r r' :
  install r = Done r' →
  (∀ k v, GM_lookup r k = Some v → to_boolean v = true →
          GM_lookup r' k = Some v) ∧
  (∀ k v, window r !! k = Some v → v ≠ VUndefined → window r' !! k = Some v).
Proof.
  intros (info & g0 & n0 & Hinfo & Hinit & Hw & Hg)%install_Done. split.
  - intros k v Hk Hv. rewrite (GM_lookup_Some _ _ _ Hg).
    apply promise_loop_keeps; [|done]. cbn [fst].
    apply direct_loop_keeps; [|done]. by eapply init_GM_keeps.
  - intros k v Hk Hv. rewrite Hw. by apply polyfill_loop_keeps.
Qed.

Lemma install_keeps_bindings_witness :
  install legacy_realm = Done (installed legacy_realm) ∧
  GM_lookup (installed legacy_realm) "log" = Some (VStr "sentinel") ∧
  window (installed legacy_realm) !! "GM_getValue" = Some (VHost "GM_getValue").
Proof.
  split; [reflexivity|].
  destruct (install_keeps_bindings legacy_realm (installed legacy_realm) eq_refl)
    as [HGM Hwindow].
  split; [apply HGM | apply Hwindow]; done.
Defined.

(** C3: a second run, from the state the first one left, changes neither
    surface. *)
Theorem install_idempotent r r1 :
  install r = Done r1 →
  ∃ r2, install r1 = Done r2 ∧ GM r2 = GM r1 ∧ window r2 = window r1.
Proof.
  intros (info & g0 & n0 & Hinfo & Hinit & Hw & Hg)%install_Done.
  remember (foldl (promise_step (window r1))
              (foldl direct_step g0 (directMappings info (n0 + 3)), n0 + 3 + 3)
              promiseMappings).1 as g2 eqn:Hg2.
  assert (window r1 !! "GM_info" = Some info) as Hinfo1.
  { rewrite Hw, polyfill_loop_other; [done | apply GM_info_not_polyfill]. }
  destruct (install_total r1) as [r2 Hr2]; [by rewrite Hinfo1|].
  exists r2. split; [done|].
  apply install_Done in Hr2
    as (info' & g0' & n1 & Hinfo' & Hinit' & Hw' & Hg').
  rewrite Hinfo1 in Hinfo'. injection Hinfo' as <-.
  rewrite (init_GM_Some _ _ Hg) in Hinit'. injection Hinit' as <- <-.
  assert (window r2 = window r1) as Hsame.
  { rewrite Hw'. apply polyfill_loop_noop. intros key impl Hin.
    destruct (polyfills_same_keys _ n0 _ _ Hin) as (impl' & Hin' & Himpl').
    rewrite Hw. by eapply polyfill_loop_fills. }
  split; [|done]. rewrite Hg', Hsame, Hg. f_equal.
  assert (foldl direct_step g2 (directMappings info (fresh r1 + 3)) = g2) as ->.
  { apply direct_loop_noop. intros newKey old Hin Hold. rewrite Hg2.
    apply promise_loop_truthy. cbn [fst].
    destruct (directMappings_same_keys _ _ (n0 + 3) _ _ Hin Hold)
      as (old' & Hin' & Hold').
    by eapply direct_loop_fills. }
  rewrite promise_loop_noop; [done|].
  intros oldKey newKey Hin Hold. rewrite Hg2.
  by eapply promise_loop_fills.
Qed.

Lemma install_idempotent_witness :
  ∃ r2, install (installed bare_realm) = Done r2 ∧
        GM r2 = GM (installed bare_realm) ∧
        window r2 = window (installed bare_realm).
Proof. apply (install_idempotent bare_realm). reflexivity. Defined.
End Monotonic.

(* ================================================================== *)
(** * The promisifying wrapper and the forwarding functions *)

Section Forwarding.
Variable apply : value → list value → completion.
Variable StringToNumber : string → Z.
Implicit Types (r : realm) (fn old timeout : value) (args : list value).

(** The promise of [promisify] is settled by the call alone. *)
Lemma promisify_promise fn timeout args :
  promise (promisify apply StringToNumber fn timeout args)
  = deferred (call apply fn args).
Proof.
  unfold promisify. cbn [setTimeout new_Promise next_timer].
  by destruct (call apply fn args) as [[v|f]|e].
Qed.

(** Its timer is cleared before [promisify] returns, whatever the call did. *)
Lemma promisify_timers fn timeout args :
  timers (promisify apply StringToNumber fn timeout args) = [].
Proof.
  unfold promisify. cbn [setTimeout new_Promise next_timer].
  by destruct (call apply fn args) as [[v|f]|e].
Qed.

Lemma promisify_throws fn timeout args e :
  call apply fn args = Throws e →
  promise (promisify apply StringToNumber fn timeout args) = Settled (Rejected e).
Proof. intros H. by rewrite promisify_promise, H. Qed.

Lemma promisify_returns fn timeout args v :
  call apply fn args = Returns (Plain v) →
  promise (promisify apply StringToNumber fn timeout args) = Settled (Fulfilled v).
Proof. intros H. by rewrite promisify_promise, H. Qed.

(** The forwarding function hands its first argument to [timeout]: the
    legacy function receives the others. *)
Lemma forward_promise old args :
  promise (forward apply StringToNumber old args)
  = deferred (call apply old (tail args)).
Proof. unfold forward, promisify_call. apply promisify_promise. Qed.

Lemma forward_timers old args :
  timers (forward apply StringToNumber old args) = [].
Proof. unfold forward, promisify_call. apply promisify_timers. Qed.

Lemma GM_get_lookup r k : GM_get r k = default VUndefined (GM_lookup r k).
Proof. unfold GM_get, GM_lookup, get. by destruct (GM r). Qed.

(** C8, as worded, fails: where the host has a native
    [GM.registerMenuCommand] and no [GM_registerMenuCommand], the polyfill
    is installed but the native member stays. *)
Lemma native_member_not_forwarded :
  install native_realm = Done (installed native_realm) ∧
  window native_realm !! "GM_registerMenuCommand" = None ∧
  GM_lookup (installed native_realm) "registerMenuCommand"
    = Some (VHost "GM.registerMenuCommand") ∧
  ¬ polyfills_forwarded native_realm (installed native_realm).
Proof.
  split_and!; [reflexivity..|].
  intros H.
  destruct (H PRegisterMenuCommand "registerMenuCommand") as (o & o' & Ho).
  - cbn [polyfill_key]. unfold promiseMappings.
    repeat first [apply list_elem_of_here | apply list_elem_of_further].
  - reflexivity.
  - vm_compute in Ho. discriminate Ho.
Qed.

(** A pair of the table whose legacy value is truthy once the polyfills are
    in place, and whose unified name is missing or falsy, gets one forwarding
    function, closed over that legacy value. *)
Lemma forwarding_installed r r' oldKey newKey :
  install r = Done r' →
  (oldKey, newKey) ∈ promiseMappings →
  to_boolean (get (window r') oldKey) = true →
  to_boolean (GM_get r newKey) = false →
  ∃ o, GM_lookup r' newKey = Some (VForward (get (window r') oldKey) o).
Proof.
  intros (info & g0 & n0 & Hinfo & Hinit & Hw & Hg)%install_Done Hin Hold Hnew.
  destruct (unified_not_initial _ _ Hin) as [Hi Hv].
  destruct (promise_loop_installs (window r') promiseMappings
              (foldl direct_step g0 (directMappings info (n0 + 3)), n0 + 3 + 3)
              oldKey newKey) as [o Ho];
    [apply promiseMappings_NoDup_unified | exact Hin | exact Hold | | ].
  { cbn [fst]. unfold get.
    rewrite direct_loop_other by by eapply unified_not_direct.
    rewrite (init_GM_lookup _ _ _ _ Hinit Hi Hv).
    by rewrite <- GM_get_lookup. }
  exists o. by rewrite (GM_lookup_Some _ _ _ Hg).
Qed.

(** C8, amended: for a legacy name that reads [undefined] and has a
    polyfill, and whose unified name is missing (or falsy) in the namespace,
    installation puts the polyfill on the legacy surface and then a
    forwarding function closed over that polyfill in the namespace; calling
    the forwarding function calls the polyfill and settles as that call
    does. *)
Theorem polyfill_is_forwarded r r' p newKey :
  install r = Done r' →
  (polyfill_key p, newKey) ∈ promiseMappings →
  typeof_undefined (get (window r) (polyfill_key p)) = true →
  to_boolean (GM_get r newKey) = false →
  ∃ o o',
    window r' !! polyfill_key p = Some (VPolyfill p o) ∧
    GM_lookup r' newKey = Some (VForward (VPolyfill p o) o') ∧
    ∀ args, ∃ j args',
      invoke apply StringToNumber (VForward (VPolyfill p o) o') args = Some j ∧
      promise j = deferred (apply (VPolyfill p o) args').
Proof.
  intros Hinst Hin Hundef Hnew.
  pose proof Hinst as (info & g0 & n0 & Hinfo & Hinit & Hw & Hg)%install_Done.
  destruct (polyfills_elem p n0) as [o Ho].
  assert (window r' !! polyfill_key p = Some (VPolyfill p o)) as Hpoly.
  { rewrite Hw. apply polyfill_loop_installs;
      [apply polyfills_NoDup | done | done | done]. }
  destruct (forwarding_installed r r' (polyfill_key p) newKey) as [o' Ho'];
    [done | done | by rewrite (get_Some _ _ _ Hpoly) | done |].
  rewrite (get_Some _ _ _ Hpoly) in Ho'.
  exists o, o'. split; [done|]. split; [done|].
  intros args. eexists _, (tail args). split; [reflexivity|].
  rewrite forward_promise. by unfold call.
Qed.

(** C9: a legacy name bound to a defined but falsy value keeps its binding
    (no polyfill replaces it), and its unified name is bound after
    installation as it was before: absent stays absent. *)
Theorem falsy_legacy_left_alone r r' oldKey newKey v :
  install r = Done r' →
  (oldKey, newKey) ∈ promiseMappings →
  window r !! oldKey = Some v → v ≠ VUndefined → to_boolean v = false →
  window r' !! oldKey = Some v ∧
  GM_lookup r' newKey = GM_lookup r newKey ∧
  (GM_lookup r newKey = None → GM_lookup r' newKey = None).
Proof.
  intros (info & g0 & n0 & Hinfo & Hinit & Hw & Hg)%install_Done Hin Hk Hdef Hfalsy.
  assert (window r' !! oldKey = Some v) as Hkept.
  { rewrite Hw. by apply polyfill_loop_keeps. }
  assert (GM_lookup r' newKey = GM_lookup r newKey) as Hsame.
  { destruct (unified_not_initial _ _ Hin) as [Hi Hv].
    rewrite (GM_lookup_Some _ _ _ Hg), promise_loop_skips.
    - cbn [fst]. rewrite direct_loop_other by by eapply unified_not_direct.
      exact (init_GM_lookup _ _ _ _ Hinit Hi Hv).
    - intros oldKey' Hin'.
      rewrite (NoDup_snd_inj _ _ _ _ promiseMappings_NoDup_unified Hin' Hin).
      by rewrite (get_Some _ _ _ Hkept). }
  split; [done|]. split; [done|]. by rewrite Hsame.
Qed.
End Forwarding.

Lemma polyfill_is_forwarded_witness :
  ∃ o o',
    window (installed bare_realm) !! "GM_addStyle" = Some (VPolyfill PAddStyle o) ∧
    GM_lookup (installed bare_realm) "addStyle"
      = Some (VForward (VPolyfill PAddStyle o) o') ∧
    ∀ args, ∃ j args',
      invoke first_argument no_strings (VForward (VPolyfill PAddStyle o) o') args
        = Some j ∧
      promise j = deferred (first_argument (VPolyfill PAddStyle o) args').
Proof.
  apply (polyfill_is_forwarded first_argument no_strings bare_realm
           (installed bare_realm) PAddStyle "addStyle").
  - reflexivity.
  - compute_done.
  - reflexivity.
  - reflexivity.
Defined.

Lemma falsy_legacy_left_alone_witness :
  window (installed null_realm) !! "GM_setClipboard" = Some VNull ∧
  GM_lookup (installed null_realm) "setClipboard" = GM_lookup null_realm "setClipboard" ∧
  (GM_lookup null_realm "setClipboard" = None →
   GM_lookup (installed null_realm) "setClipboard" = None).
Proof.
  apply (falsy_legacy_left_alone null_realm (installed null_realm) "GM_setClipboard").
  - reflexivity.
  - compute_done.
  - reflexivity.
  - discriminate.
  - reflexivity.
Defined.

(** C1 at the input where the code departs from it: with a legacy
    [GM_getValue] that returns its first argument, [GM.getValue('k', 'd')]
    resolves with ['d'] where [GM_getValue('k', 'd')] returns ['k']: the first
    argument went to [timeout]. *)
Theorem forward_drops_first_argument :
  install legacy_realm = Done (installed legacy_realm) ∧
  window legacy_realm !! "GM_getValue" = Some (VHost "GM_getValue") ∧
  GM_lookup legacy_realm "getValue" = None ∧
  GM_lookup (installed legacy_realm) "getValue"
    = Some (VForward (VHost "GM_getValue") 8) ∧
  promise <$> invoke first_argument no_strings
                (VForward (VHost "GM_getValue") 8) [VStr "k"; VStr "d"]
    = Some (Settled (Fulfilled (VStr "d"))) ∧
  deferred (call first_argument (VHost "GM_getValue") [VStr "k"; VStr "d"])
    = Settled (Fulfilled (VStr "k")) ∧
  ¬ forwards_faithfully first_argument no_strings
      (VHost "GM_getValue") [VStr "k"; VStr "d"].
Proof. split_and!; [reflexivity..|]. unfold forwards_faithfully. by vm_compute. Qed.

(** With no timer and no observer, passing time and changes of the document
    call neither [resolve] nor [reject]. *)
Lemma run_without_timers j es :
  timers j = [] → observer j = None →
  timers (run j es) = [] ∧ observer (run j es) = None ∧
  resolve_calls (run j es) = resolve_calls j ∧
  reject_calls (run j es) = reject_calls j.
Proof.
  revert j. induction es as [|[ms|d] es IH]; intros j Ht Ho; [done| |].
  - unfold run. cbn [foldl step]. unfold advance. rewrite Ht.
    rewrite !filter_nil. cbn [fmap list_fmap foldl].
    match goal with |- context [foldl step ?j' es] => destruct (IH j') as (?&?&?&?) end;
      [done..|].
    by split_and!.
  - unfold run. cbn [foldl step]. unfold notify. rewrite Ho. by apply IH.
Qed.

(** The timer of [promisify] never runs: after [promisify] has returned,
    [reject] is not called again, whatever the function did and however
    long one waits. *)
Lemma promisify_timer_is_dead apply StringToNumber fn timeout args es :
  let j := promisify apply StringToNumber fn timeout args in
  timers (run j es) = [] ∧ reject_calls (run j es) = reject_calls j.
Proof.
  cbv zeta.
  destruct (run_without_timers (promisify apply StringToNumber fn timeout args) es)
    as (? & _ & _ & ?); [apply promisify_timers | | done].
  unfold promisify. cbn [setTimeout new_Promise next_timer].
  by destruct (call apply fn args) as [[v|f]|e].
Qed.

(** C4 at the input where the code departs from it: for a function that
    returns a promise which never settles, the timer set for 100 ms is
    already cleared when [promisify] returns, and whatever happens later the
    promise is never rejected: it stays locked to the callee's promise. *)
Theorem promisify_never_times_out (es : list event) :
  let j := promisify hangs no_strings (VHost "hang") (VNum 100) [] in
  timers j = [] ∧ reject_calls j = 0 ∧
  promise (run j es) = Following Never ∧
  promise (run j (Advance 100 :: es)) ≠ Settled (Rejected (VError "Operation timed out")).
Proof.
  assert (∀ es, run (Job (Following Never) [] 1 None 1 0) es
                = Job (Following Never) [] 1 None 1 0) as Hstay.
  { clear es. induction es as [|[ms|d] es IH]; [done|exact IH..]. }
  cbv zeta. split_and!; try reflexivity.
  - change (promisify hangs no_strings (VHost "hang") (VNum 100) [])
      with (Job (Following Never) [] 1 None 1 0).
    by rewrite Hstay.
  - change (promise (run (Job (Following Never) [] 1 None 1 0) es)
            ≠ Settled (Rejected (VError "Operation timed out"))).
    by rewrite Hstay.
Qed.

(* ================================================================== *)
(** * The body waiter *)

Section Waiter.
Implicit Types (d : document) (j : job) (es pre post : list event).

Lemma waitForBody_present timeout d b :
  body d = Some b →
  waitForBody timeout d = Job (Settled (Fulfilled (VNode b))) [] 0 None 1 0.
Proof. unfold waitForBody. by intros ->. Qed.

Lemma waitForBody_absent timeout d :
  body d = None →
  waitForBody timeout d
  = armed (Z.to_N timeout)
      (is_loading (readyState d) && bool_decide (is_Some (documentElement d))).
Proof.
  unfold waitForBody. intros ->. cbn [setTimeout new_Promise next_timer].
  by destruct (_ && _).
Qed.

Lemma advance_armed_early ms ms_left obs :
  (ms < ms_left)%N → advance ms (armed ms_left obs) = armed (ms_left - ms) obs.
Proof.
  intros H. unfold advance, armed. cbn [timers].
  rewrite !filter_cons, !filter_nil. cbn [fst snd].
  repeat case_decide; try lia. cbn. reflexivity.
Qed.

Lemma advance_armed_due ms ms_left obs :
  (ms_left ≤ ms)%N → advance ms (armed ms_left obs) = timed_out.
Proof.
  intros H. unfold advance, armed. cbn [timers].
  rewrite !filter_cons, !filter_nil. cbn [fst snd].
  repeat case_decide; try lia. cbn. reflexivity.
Qed.

Lemma notify_armed_body d b ms_left :
  body d = Some b → notify d (armed ms_left true) = body_found b.
Proof. unfold notify, armed. cbn [observer]. by intros ->. Qed.

Lemma notify_armed_quiet d ms_left obs :
  obs = false ∨ body d = None → notify d (armed ms_left obs) = armed ms_left obs.
Proof. unfold notify, armed. cbn [observer]. by intros [->| ->]; [|destruct obs]. Qed.

(** Once settled, with no timer ms_left and the observer disconnected, nothing
    moves any more. *)
Lemma step_settled j s e :
  promise j = Settled s → timers j = [] → observing j = false → step j e = j.
Proof.
  destruct j as [p ts n o rs rj]. cbn [promise timers]. intros -> -> Ho.
  destruct e as [ms|d]; [reflexivity|].
  unfold notify. cbn [observer]. unfold observing in Ho. cbn [observer] in Ho.
  by destruct o as [[[tid] []]|].
Qed.

Lemma run_settled j s es :
  promise j = Settled s → timers j = [] → observing j = false → run j es = j.
Proof.
  intros Hp Ht Ho. induction es as [|e es IH]; [done|].
  unfold run in *. cbn [foldl]. by rewrite (step_settled j s e).
Qed.

Lemma no_body_cons e es : no_body (e :: es) ↔
  match e with Mutate d => body d = None | Advance _ => True end ∧ no_body es.
Proof. unfold no_body. apply Forall_cons. Qed.

(** While the deadline has not come and no observed change brought a body,
    the waiter keeps waiting. *)
Lemma run_armed_waits pre ms_left obs :
  obs = false ∨ no_body pre → (elapsed pre < ms_left)%N →
  run (armed ms_left obs) pre = armed (ms_left - elapsed pre) obs.
Proof.
  revert ms_left. induction pre as [|[ms|d] pre IH]; intros ms_left Hq Ht.
  - cbn. by rewrite N.sub_0_r.
  - cbn [elapsed foldr] in Ht. fold (elapsed pre) in Ht.
    unfold run. cbn [foldl step]. rewrite advance_armed_early by lia.
    fold (run (armed (ms_left - ms) obs) pre). rewrite IH.
    + cbn [elapsed foldr]. fold (elapsed pre). f_equal. lia.
    + destruct Hq as [?|[_ ?]%no_body_cons]; auto.
    + lia.
  - cbn [elapsed foldr] in Ht. fold (elapsed pre) in Ht.
    unfold run. cbn [foldl step]. rewrite notify_armed_quiet.
    + fold (run (armed ms_left obs) pre). rewrite IH; [done| |done].
      destruct Hq as [?|[_ ?]%no_body_cons]; auto.
    + destruct Hq as [?|[? _]%no_body_cons]; auto.
Qed.

Lemma run_app j es es' : run j (es ++ es') = run (run j es) es'.
Proof. unfold run. apply foldl_app. Qed.

Lemma run_one j ms : run j [Advance ms] = advance ms j.
Proof. reflexivity. Qed.

Lemma run_one_change j d : run j [Mutate d] = notify d j.
Proof. reflexivity. Qed.

(** C6, as worded, fails: in a document that has finished loading, no
    observer is registered, so a body that appears is not noticed. *)
Lemma waitForBody_misses_body :
  body bodiless_document = None ∧
  promise (run (waitForBody_default bodiless_document)
             [Mutate (with_body 5 bodiless_document)]) = Pending ∧
  ¬ resolves_when_body_appears bodiless_document.
Proof.
  split_and!; [reflexivity..|].
  intros H.
  destruct (H eq_refl [] (with_body 5 bodiless_document) 5) as [Hp _].
  - constructor.
  - reflexivity.
  - vm_compute in Hp. discriminate Hp.
Qed.

(** C6, amended: with the body present at call time the waiter resolves
    at once with it, sets no timer and makes no observer.  With the body
    absent, in a document that is still loading and has a root element,
    and when the first observed change that brings a body comes before the
    timeout has run out, the waiter is pending until then, resolves with
    that body by a single call of [resolve], disconnects its observer,
    clears its timer, and nothing changes it afterwards. *)
Theorem waitForBody_resolves timeout d0 :
  (∀ b, body d0 = Some b →
     let j := waitForBody timeout d0 in
     promise j = Settled (Fulfilled (VNode b)) ∧ observer j = None ∧
     timers j = [] ∧ resolve_calls j = 1) ∧
  (body d0 = None → readyState d0 = Loading → is_Some (documentElement d0) →
   ∀ pre d b post,
     no_body pre → (elapsed pre < Z.to_N timeout)%N → body d = Some b →
     let j := run (waitForBody timeout d0) (pre ++ [Mutate d]) in
     promise (run (waitForBody timeout d0) pre) = Pending ∧
     promise j = Settled (Fulfilled (VNode b)) ∧ resolve_calls j = 1 ∧
     observing j = false ∧ timers j = [] ∧ run j post = j).
Proof.
  split.
  - intros b Hb. cbv zeta. by rewrite (waitForBody_present _ _ _ Hb).
  - intros Hnone Hload Hroot pre d b post Hpre Ht Hb. cbv zeta.
    rewrite (waitForBody_absent _ _ Hnone), Hload.
    rewrite (bool_decide_eq_true_2 _ Hroot). cbn [is_loading andb].
    rewrite run_app, (run_armed_waits pre) by auto.
    rewrite run_one_change, (notify_armed_body _ _ _ Hb).
    split_and!; try reflexivity.
    by apply (run_settled _ (Fulfilled (VNode b))).
Qed.

Lemma waitForBody_resolves_witness :
  (let j := waitForBody 10000 (with_body 5 loading_document) in
   promise j = Settled (Fulfilled (VNode 5)) ∧ observer j = None ∧
   timers j = [] ∧ resolve_calls j = 1) ∧
  (let j := run (waitForBody 10000 loading_document)
              ([Advance 2000; Mutate loading_document; Advance 3000]
               ++ [Mutate (with_body 5 loading_document)]) in
   promise (run (waitForBody 10000 loading_document)
              [Advance 2000; Mutate loading_document; Advance 3000]) = Pending ∧
   promise j = Settled (Fulfilled (VNode 5)) ∧ resolve_calls j = 1 ∧
   observing j = false ∧ timers j = [] ∧
   run j [Mutate (with_body 6 loading_document); Advance 20000] = j).
Proof.
  split.
  - apply (proj1 (waitForBody_resolves 10000 (with_body 5 loading_document)) 5).
    reflexivity.
  - apply (proj2 (waitForBody_resolves 10000 loading_document)).
    + reflexivity.
    + reflexivity.
    + by exists 1.
    + unfold no_body. repeat constructor.
    + reflexivity.
    + reflexivity.
Defined.

(** C10: with the body absent at call time, when the deadline of 10000 ms
    comes before any observed change has brought a body, the waiter is
    rejected with the timeout error and its observer is disconnected.  In a
    document that is not loading, or has no root element, the observer is
    never registered, so this happens whatever the document did in between.
    [GM_registerMenuCommand] then logs the error and resolves with [null],
    leaving the document as it is. *)
Theorem waitForBody_deadline d0 pre ms post version caption commandFunc key :
  body d0 = None →
  no_body pre ∨ readyState d0 ≠ Loading ∨ documentElement d0 = None →
  (elapsed pre < 10000)%N → (10000 ≤ elapsed pre + ms)%N →
  let j := run (waitForBody_default d0) (pre ++ [Advance ms]) in
  promise (run (waitForBody_default d0) pre) = Pending ∧
  (readyState d0 ≠ Loading ∨ documentElement d0 = None →
   observing (run (waitForBody_default d0) pre) = false) ∧
  promise j = Settled (Rejected (VError "Timeout waiting for body")) ∧
  observing j = false ∧ timers j = [] ∧ run j post = j ∧
  GM_registerMenuCommand_run version caption commandFunc key d0 (pre ++ [Advance ms])
  = (Settled (Fulfilled VNull), current d0 (pre ++ [Advance ms]),
     [ConsoleErrorLine "GM_registerMenuCommand error:"
        (VError "Timeout waiting for body")]).
Proof.
  intros Hnone Hq Ht Hdue. cbv zeta.
  unfold GM_registerMenuCommand_run, waitForBody_default.
  rewrite (waitForBody_absent _ _ Hnone).
  assert (readyState d0 ≠ Loading ∨ documentElement d0 = None →
          is_loading (readyState d0) && bool_decide (is_Some (documentElement d0))
          = false) as Hoff.
  { intros [Hnl|Hnr]; [by destruct (readyState d0)|]. rewrite Hnr.
    rewrite bool_decide_eq_false_2; [apply andb_false_r|]. by intros [? [=]]. }
  set (obs := is_loading (readyState d0) && _) in *.
  assert (obs = false ∨ no_body pre) as Hq'.
  { destruct Hq as [?|Hno]; [by right|left]. by apply Hoff. }
  change (Z.to_N 10000) with 10000%N.
  rewrite run_app, (run_armed_waits pre) by done.
  rewrite run_one, advance_armed_due by lia.
  split_and!; try reflexivity.
  - intros Hno. cbn. by apply Hoff.
  - by apply (run_settled _ (Rejected (VError "Timeout waiting for body"))).
Qed.

Lemma waitForBody_deadline_witness :
  let es := [Advance 4000; Mutate (with_body 5 bodiless_document)] in
  let j := run (waitForBody_default bodiless_document) (es ++ [Advance 6000]) in
  promise (run (waitForBody_default bodiless_document) es) = Pending ∧
  (readyState bodiless_document ≠ Loading ∨ documentElement bodiless_document = None →
   observing (run (waitForBody_default bodiless_document) es) = false) ∧
  promise j = Settled (Rejected (VError "Timeout waiting for body")) ∧
  observing j = false ∧ timers j = [] ∧ run j [Advance 1] = j ∧
  GM_registerMenuCommand_run (VStr "4.0.0") (VStr "Run") (VHost "cmd") VUndefined
    bodiless_document (es ++ [Advance 6000])
  = (Settled (Fulfilled VNull), current bodiless_document (es ++ [Advance 6000]),
     [ConsoleErrorLine "GM_registerMenuCommand error:"
        (VError "Timeout waiting for body")]).
Proof.
  apply (waitForBody_deadline bodiless_document
           [Advance 4000; Mutate (with_body 5 bodiless_document)] 6000 [Advance 1]).
  - reflexivity.
  - right. left. discriminate.
  - reflexivity.
  - vm_compute. discriminate.
Defined.
End Waiter.

(* ================================================================== *)
(** * The menu entry and its click handler *)

Section Menu.
Variable apply : value → list value → completion.
Implicit Types (item : menuitem) (commandFunc ev : value).

Lemma register_entry_last version caption commandFunc key d :
  last_entry (register_entry version caption commandFunc key d).2
  = Some (MenuItem (match gm_menu d with
                    | Some _ => next_node d
                    | None => S (next_node d)
                    end)
            caption (if to_boolean key then Some key else None)
            [Listener (WrappedCommand commandFunc) true]).
Proof.
  unfold register_entry, last_entry.
  destruct (gm_menu d) as [m|]; cbn; [by rewrite last_snoc | done].
Qed.

(** An entry without listeners runs nothing, however often it is clicked. *)
Lemma clicks_no_listener n item ev :
  click item = [] → (clicks apply n item ev).2 = [].
Proof.
  revert item. induction n as [|n IH]; intros item Hc; [done|].
  cbn [clicks]. unfold dispatch_click. rewrite Hc. cbn [fmap list_fmap].
  rewrite filter_nil.
  specialize (IH (MenuItem (item_node item) (textContent item) (accessKey item) [])
                eq_refl).
  destruct (clicks apply n _ ev) as [item'' runs']. by cbn in *.
Qed.

(** A listener added with [once] runs on the first click and never again. *)
Lemma clicks_once n item ev h :
  click item = [Listener h true] →
  (clicks apply n item ev).2
  = match n with 0 => [] | S _ => [(h, run_handler apply h [ev])] end.
Proof.
  destruct n as [|n]; intros Hc; [done|].
  cbn [clicks]. unfold dispatch_click. rewrite Hc.
  cbn [fmap list_fmap callback]. rewrite filter_cons, filter_nil.
  cbn [once]. rewrite decide_False by done.
  pose proof (clicks_no_listener n
    (MenuItem (item_node item) (textContent item) (accessKey item) []) ev eq_refl) as H.
  destruct (clicks apply n _ ev) as [item'' runs']. cbn in H. by subst.
Qed.

(** C7: the entry made by [GM_registerMenuCommand] carries one listener,
    the wrapped command.  Over any number of clicks the command runs at
    most once.  A run never throws into the dispatcher and the promise it
    returns is never rejected; an error the command throws, or rejects
    with, is logged. *)
Theorem menu_command_contained version caption commandFunc key d ev n :
  ∃ item,
    last_entry (register_entry version caption commandFunc key d).2 = Some item ∧
    (register_entry version caption commandFunc key d).1 = VNode (item_node item) ∧
    click item = [Listener (WrappedCommand commandFunc) true] ∧
    (clicks apply n item ev).2
    = match n with
      | 0 => []
      | S _ => [(WrappedCommand commandFunc, wrappedCommand apply commandFunc [ev])]
      end ∧
    (length (clicks apply n item ev).2 ≤ 1)%nat ∧
    let h := wrappedCommand apply commandFunc [ev] in
    escaped h = None ∧
    (∀ t e, result h ≠ Eventually t (Rejected e)) ∧
    (∀ e, call apply commandFunc [ev] = Throws e →
          logged h = [(0%N, ConsoleErrorLine "Menu command error:" e)]) ∧
    (∀ t e, call apply commandFunc [ev] = Returns (Promise (Eventually t (Rejected e))) →
            logged h = [(t, ConsoleErrorLine "Menu command error:" e)]).
Proof.
  eexists. split; [apply register_entry_last|].
  cbn [item_node click]. split.
  { unfold register_entry. by destruct (gm_menu d). }
  split; [done|].
  assert ((clicks apply n
             (MenuItem (match gm_menu d with
                        | Some _ => next_node d
                        | None => S (next_node d)
                        end)
                caption (if to_boolean key then Some key else None)
                [Listener (WrappedCommand commandFunc) true]) ev).2
          = match n with
            | 0 => []
            | S _ => [(WrappedCommand commandFunc,
                       wrappedCommand apply commandFunc [ev])]
            end) as Hruns by by apply clicks_once.
  split; [exact Hruns|]. split.
  { rewrite Hruns. destruct n; cbn; lia. }
  cbv zeta. unfold wrappedCommand.
  destruct (call apply commandFunc [ev]) as [[v|[|t [v|e]]]|e]; cbn;
    split_and!; try done; intros; congruence.
Qed.
End Menu.

Lemma menu_command_contained_witness :
  let h := wrappedCommand throws (VHost "cmd") [VObject 9] in
  escaped h = None ∧
  logged h = [(0%N, ConsoleErrorLine "Menu command error:" (VError "boom"))].
Proof.
  destruct (menu_command_contained throws (VStr "4.0.0") (VStr "Run") (VHost "cmd")
              VUndefined loading_document (VObject 9) 2)
    as (item & _ & _ & _ & _ & _ & Hescaped & _ & Hthrown & _).
  split; [exact Hescaped | apply Hthrown; reflexivity].
Defined.

(* ================================================================== *)
(** * Retrieval of a resource text *)

Section ResourceText.
Variable net : value → nat → attempt.
Implicit Types (resourceId : value) (maxRetries attempts : Z).

Lemma fails_try a : fails a → ∃ e, try_fetch a = inr e.
Proof. destruct a; cbn; eauto. done. Qed.

(** The loop ends: [maxRetries] passes are enough fuel. *)
Lemma retry_total fuel resourceId maxRetries attempts tries :
  (maxRetries - attempts ≤ Z.of_nat fuel)%Z →
  is_Some (retry net fuel resourceId maxRetries attempts tries).
Proof.
  revert attempts tries. induction fuel as [|fuel IH]; intros attempts tries Hf.
  - cbn [retry]. destruct (Z.ltb_spec attempts maxRetries); [lia | eauto].
  - cbn [retry]. destruct (Z.ltb_spec attempts maxRetries); [|eauto].
    destruct (try_fetch _); [eauto|].
    destruct (Z.eqb_spec (attempts + 1) maxRetries); [eauto|].
    destruct (IH (attempts + 1)%Z (S tries)) as [[r effs] ->]; [lia | eauto].
Qed.

Lemma GM_getResourceText_total resourceId maxRetries :
  is_Some (GM_getResourceText net resourceId maxRetries).
Proof. unfold GM_getResourceText. apply retry_total. lia. Qed.

(** C5: when the first two passes fail and the third gives the text, the
    call makes exactly three passes, waits 2000 ms between the first and the
    second and 4000 ms between the second and the third, and returns the
    text.  When every pass fails it makes exactly three passes with the same
    two waits between them, then logs the error of the third pass and
    returns [null] without a further wait; the promise is fulfilled, not
    rejected. *)
Theorem GM_getResourceText_retries resourceId :
  (∀ text,
     fails (net resourceId 0) → fails (net resourceId 1) →
     net resourceId 2 = Text text →
     ∃ effs,
       GM_getResourceText_default net resourceId
         = Some (Fulfilled (VStr text), effs) ∧
       effs = [Tried resourceId; Slept 2000;
               Tried resourceId; Slept 4000;
               Tried resourceId] ∧
       tries_of effs = 3 ∧ delays_of effs = [2000; 4000]%Z) ∧
  ((∀ n, fails (net resourceId n)) →
   ∃ effs error,
     GM_getResourceText_default net resourceId = Some (Fulfilled VNull, effs) ∧
     try_fetch (net resourceId 2) = inr error ∧
     effs = [Tried resourceId; Slept 2000;
             Tried resourceId; Slept 4000;
             Tried resourceId;
             Logged (ConsoleErrorLine "GM_getResourceText final error:" error)] ∧
     tries_of effs = 3 ∧ delays_of effs = [2000; 4000]%Z ∧
     last effs = Some (Logged (ConsoleErrorLine "GM_getResourceText final error:" error))).
Proof.
  unfold GM_getResourceText_default, GM_getResourceText.
  change (Z.to_nat 3) with 3. split.
  - intros text [e0 H0]%fails_try [e1 H1]%fails_try H2.
    cbn [retry]. rewrite H0, H1, H2. cbn. eexists. by split_and!.
  - intros Hall.
    destruct (fails_try _ (Hall 0)) as [e0 H0].
    destruct (fails_try _ (Hall 1)) as [e1 H1].
    destruct (fails_try _ (Hall 2)) as [e2 H2].
    cbn [retry]. rewrite H0, H1, H2. cbn. eexists _, e2. by split_and!.
Qed.
End ResourceText.

Lemma GM_getResourceText_retries_witness :
  (∃ effs,
     GM_getResourceText_default
       (λ _ n, match n with
               | 0 => FetchFails (VError "offline")
               | 1 => NotOk 503
               | _ => Text "body { }"
               end) (VStr "css")
     = Some (Fulfilled (VStr "body { }"), effs) ∧
     effs = [Tried (VStr "css"); Slept 2000;
             Tried (VStr "css"); Slept 4000;
             Tried (VStr "css")] ∧
     tries_of effs = 3 ∧ delays_of effs = [2000; 4000]%Z) ∧
  (∃ effs error,
     GM_getResourceText_default (λ _ _, NotOk 404) (VStr "css")
     = Some (Fulfilled VNull, effs) ∧
     try_fetch (NotOk 404) = inr error ∧
     effs = [Tried (VStr "css"); Slept 2000;
             Tried (VStr "css"); Slept 4000;
             Tried (VStr "css");
             Logged (ConsoleErrorLine "GM_getResourceText final error:" error)] ∧
     tries_of effs = 3 ∧ delays_of effs = [2000; 4000]%Z ∧
     last effs = Some (Logged (ConsoleErrorLine "GM_getResourceText final error:" error))).
Proof.
  split.
  - apply (proj1 (GM_getResourceText_retries _ (VStr "css"))); [exact I | exact I | reflexivity].
  - apply (proj2 (GM_getResourceText_retries (λ _ _, NotOk 404) (VStr "css"))).
    intros n. exact I.
Defined.

(* ================================================================== *)
(** * Further properties of the installer *)

Section InstallerMore.
Implicit Types (r : realm) (g w : gmap string value) (k : string) (v : value).

(** X1: The script needs [GM_info]: it throws a ReferenceError exactly when
    [GM_info] is not declared, and runs to completion otherwise. *)
Theorem install_needs_GM_info r :
  (install r = Raised (ReferenceError "GM_info") ↔ window r !! "GM_info" = None) ∧
  ((∃ r', install r = Done r') ↔ is_Some (window r !! "GM_info")).
Proof.
  split; split.
  - intros H. destruct (window r !! "GM_info") as [info|] eqn:E; [|done].
    destruct (install_total r) as [r' Hr']; [by rewrite E | congruence].
  - intros H. unfold install, init_GM, global. rewrite H.
    by destruct (GM r).
  - intros [r' (info & _ & _ & Hinfo & _)%install_Done]. by rewrite Hinfo.
  - apply install_total.
Qed.

Lemma direct_loop_installs l g newKey old :
  NoDup l.*1 → (newKey, old) ∈ l →
  to_boolean old = true → to_boolean (get g newKey) = false →
  foldl direct_step g l !! newKey = Some old.
Proof.
  revert g. induction l as [|[newKey' old'] l IH]; intros g Hnd Hin Hold Hnew.
  - by apply elem_of_nil in Hin.
  - cbn in Hnd. apply NoDup_cons in Hnd as [Hfirst Hnd]. cbn [foldl].
    apply elem_of_cons in Hin as [Heq|Hin].
    + injection Heq as <- <-. apply direct_loop_keeps; [|done].
      unfold direct_step. rewrite Hold, Hnew. cbn [andb negb].
      by rewrite lookup_insert_eq.
    + assert (newKey' ≠ newKey) as Hne.
      { intros ->. apply Hfirst. apply list_elem_of_fmap. by exists (newKey, old). }
      apply IH; [done..|].
      unfold direct_step. destruct (_ && _); [|done]. by rewrite get_insert_ne.
Qed.

Lemma directMappings_keys info n :
  (directMappings info n).*1 = ["log"; "info"; "error"; "warn"].
Proof. reflexivity. Qed.

(** X2: Installation writes only the names of its tables: on the legacy surface
    the three polyfill names; in a namespace that was there the four aliases
    and the unified names; a namespace it creates has, besides those, only
    [info] and [version]. *)
Theorem install_touches_only_tables r r' k :
  install r = Done r' →
  (k ∉ ["GM_addStyle"; "GM_registerMenuCommand"; "GM_getResourceText"] →
   window r' !! k = window r !! k) ∧
  (k ∉ ["log"; "info"; "error"; "warn"] → k ∉ promiseMappings.*2 →
   (is_Some (GM r) → GM_lookup r' k = GM_lookup r k) ∧
   (GM r = None → k ≠ "version" → GM_lookup r' k = None)).
Proof.
  intros (info & g0 & n0 & Hinfo & Hinit & Hw & Hg)%install_Done. split.
  - intros Hk. rewrite Hw. by apply polyfill_loop_other.
  - intros Hd Hu.
    assert (GM_lookup r' k = g0 !! k) as Hsame.
    { rewrite (GM_lookup_Some _ _ _ Hg), promise_loop_other by done.
      cbn [fst]. by apply direct_loop_other. }
    rewrite Hsame. split.
    + intros [g HG]. unfold init_GM in Hinit. rewrite HG in Hinit.
      injection Hinit as <- _. by rewrite (GM_lookup_Some _ _ _ HG).
    + intros HG Hv. rewrite (init_GM_lookup _ _ _ _ Hinit); [| |done].
      * unfold GM_lookup. by rewrite HG.
      * intros ->. apply Hd. compute_done.
Qed.

Lemma install_touches_only_tables_witness :
  window (installed legacy_realm) !! "GM_getValue" = window legacy_realm !! "GM_getValue" ∧
  GM_lookup (installed native_realm) "version" = GM_lookup native_realm "version" ∧
  GM_lookup (installed bare_realm) "unsafeWindow" = None.
Proof.
  split_and!.
  - apply (proj1 (install_touches_only_tables legacy_realm (installed legacy_realm)
                    "GM_getValue" eq_refl)). compute_done.
  - destruct (proj2 (install_touches_only_tables native_realm (installed native_realm)
                       "version" eq_refl)) as [Hkept _];
      [compute_done | compute_done | apply Hkept; by eexists].
  - destruct (proj2 (install_touches_only_tables bare_realm (installed bare_realm)
                       "unsafeWindow" eq_refl)) as [_ Hnone];
      [compute_done | compute_done | by apply Hnone].
Defined.

(** X3: A namespace created by the script: [version] is '4.0.0', [info] is
    [GM_info] itself when that is truthy and a new object otherwise, the
    three console aliases are bound, and a unified name is bound, to a
    forwarding function over the legacy value, exactly when the legacy value
    (after the polyfills were put in) is truthy. *)
Theorem install_from_scratch r r' info :
  install r = Done r' → GM r = None → window r !! "GM_info" = Some info →
  GM_lookup r' "version" = Some (VStr "4.0.0") ∧
  GM_lookup r' "info"
    = Some (if to_boolean info then info else VObject (fresh r)) ∧
  (∃ o, GM_lookup r' "log" = Some (VBound ConsoleLog o) ∧
        GM_lookup r' "error" = Some (VBound ConsoleError (o + 1)) ∧
        GM_lookup r' "warn" = Some (VBound ConsoleWarn (o + 2))) ∧
  (∀ oldKey newKey, (oldKey, newKey) ∈ promiseMappings →
     if to_boolean (get (window r') oldKey)
     then ∃ o, GM_lookup r' newKey = Some (VForward (get (window r') oldKey) o)
     else GM_lookup r' newKey = None).
Proof.
  intros Hinst HG Hinfo.
  pose proof Hinst as (info' & g0 & n0 & Hinfo' & Hinit & Hw & Hg)%install_Done.
  rewrite Hinfo in Hinfo'. injection Hinfo' as <-.
  assert (∀ k v, g0 !! k = Some v → to_boolean v = true →
                 GM_lookup r' k = Some v) as Hkeep.
  { intros k v Hk Hv. rewrite (GM_lookup_Some _ _ _ Hg).
    apply promise_loop_keeps; [|done]. by apply direct_loop_keeps. }
  assert (g0 !! "version" = Some (VStr "4.0.0") ∧
          g0 !! "info" = Some (if to_boolean info then info else VObject (fresh r)))
    as [Hver Hi].
  { unfold init_GM, global in Hinit. rewrite HG, Hinfo in Hinit.
    destruct (to_boolean info); injection Hinit as <- _; by split. }
  split; [by apply Hkeep|]. split.
  { apply Hkeep; [done|]. by destruct (to_boolean info) eqn:E. }
  split.
  - exists (n0 + 3).
    assert (∀ k old, (k, old) ∈ directMappings info (n0 + 3) →
              k ≠ "info" → to_boolean old = true → GM_lookup r' k = Some old) as Hd.
    { intros k old Hin Hne Hold. rewrite (GM_lookup_Some _ _ _ Hg).
      apply promise_loop_keeps; [|done]. cbn [fst].
      apply direct_loop_installs; [by rewrite directMappings_keys; compute_done|done..|].
      unfold get. rewrite (init_GM_lookup _ _ _ _ Hinit Hne).
      - unfold GM_lookup. by rewrite HG.
      - intros ->. apply (list_elem_of_fmap_2 fst) in Hin.
        rewrite directMappings_keys in Hin. cbn [fst] in Hin.
        repeat (apply elem_of_cons in Hin as [?|Hin]; [done|]).
        by apply elem_of_nil in Hin. }
    unfold directMappings in Hd.
    split_and!; apply Hd; try done;
      repeat first [apply list_elem_of_here | apply list_elem_of_further].
  - intros oldKey newKey Hin.
    destruct (to_boolean (get (window r') oldKey)) eqn:Hold.
    + apply (forwarding_installed r r'); [done..|].
      unfold GM_get. by rewrite HG.
    + destruct (unified_not_initial _ _ Hin) as [Hni Hnv].
      rewrite (GM_lookup_Some _ _ _ Hg), promise_loop_skips.
      * cbn [fst]. rewrite direct_loop_other by by eapply unified_not_direct.
        rewrite (init_GM_lookup _ _ _ _ Hinit Hni Hnv).
        unfold GM_lookup. by rewrite HG.
      * intros oldKey' Hin'.
        by rewrite (NoDup_snd_inj _ _ _ _ promiseMappings_NoDup_unified Hin' Hin).
Qed.

Lemma install_from_scratch_witness :
  GM_lookup (installed null_realm) "version" = Some (VStr "4.0.0") ∧
  GM_lookup (installed null_realm) "info" = Some (VObject 0) ∧
  GM_lookup (installed null_realm) "setClipboard" = None.
Proof.
  destruct (install_from_scratch null_realm (installed null_realm) (VObject 0)
              eq_refl eq_refl eq_refl) as (Hv & Hi & _ & Hf).
  split; [exact Hv|]. split; [exact Hi|].
  assert (("GM_setClipboard", "setClipboard") ∈ promiseMappings) as Hin by compute_done.
  exact (Hf _ _ Hin).
Defined.
End InstallerMore.

(* ================================================================== *)
(** * Further properties of the wrapper and the waiter *)

Section WrapperMore.
Variable apply : value → list value → completion.
Variable StringToNumber : string → Z.
Implicit Types (fn old timeout : value) (args : list value) (es : list event).

Lemma promisify_job fn timeout args :
  promisify apply StringToNumber fn timeout args
  = match call apply fn args with
    | Returns result => resolve result (Job Pending [] 1 None 0 0)
    | Throws error => reject error (Job Pending [] 1 None 0 0)
    end.
Proof.
  unfold promisify. cbn [setTimeout new_Promise next_timer].
  by destruct (call apply fn args).
Qed.

(** X4: [promisify] calls exactly one of [resolve] and [reject], once, and no
    later event calls either again; the value of [timeout] makes no
    difference to what it leaves behind. *)
Theorem promisify_settles_once fn timeout timeout' args es :
  let j := run (promisify apply StringToNumber fn timeout args) es in
  resolve_calls j + reject_calls j = 1 ∧ timers j = [] ∧
  promisify apply StringToNumber fn timeout' args
  = promisify apply StringToNumber fn timeout args.
Proof.
  cbv zeta. split_and!.
  - destruct (run_without_timers (promisify apply StringToNumber fn timeout args) es)
      as (_ & _ & -> & ->).
    + apply promisify_timers.
    + rewrite promisify_job. by destruct (call apply fn args).
    + rewrite promisify_job. by destruct (call apply fn args).
  - apply promisify_timer_is_dead.
  - by rewrite !promisify_job.
Qed.

(** X5: The first argument of a forwarding function never reaches the legacy
    function: two calls that differ only in it leave the same promise, the
    one of the legacy call on the other arguments.  Called without arguments
    the forwarding function is faithful. *)
Theorem forward_ignores_first_argument old a a' rest :
  forward apply StringToNumber old (a :: rest)
  = forward apply StringToNumber old (a' :: rest) ∧
  promise (forward apply StringToNumber old (a :: rest))
  = deferred (call apply old rest) ∧
  forwards_faithfully apply StringToNumber old [].
Proof.
  split_and!.
  - unfold forward, promisify_call. cbn [tail]. by rewrite !promisify_job.
  - by rewrite forward_promise.
  - unfold forwards_faithfully. by rewrite forward_promise.
Qed.

Lemma run_following t s n a b es :
  (elapsed es < t)%N →
  run (Job (Following (Eventually t s)) [] n None a b) es
  = Job (Following (Eventually (t - elapsed es) s)) [] n None a b.
Proof.
  revert t. induction es as [|[ms|d] es IH]; intros t Ht.
  - cbn. by rewrite N.sub_0_r.
  - cbn [elapsed foldr] in *. fold (elapsed es) in *.
    unfold run. cbn [foldl step]. unfold advance. cbn [timers promise follow].
    rewrite !filter_nil. cbn [fmap list_fmap foldl].
    destruct (N.leb_spec t ms); [lia|].
    fold (run (Job (Following (Eventually (t - ms) s)) [] n None a b) es).
    rewrite IH by lia. do 3 f_equal. lia.
  - cbn [elapsed foldr] in *. fold (elapsed es) in *. by apply IH.
Qed.

Lemma run_followed t s n a b es :
  (0 < t)%N → (t ≤ elapsed es)%N →
  run (Job (Following (Eventually t s)) [] n None a b) es
  = Job (Settled s) [] n None a b.
Proof.
  revert t. induction es as [|[ms|d] es IH]; intros t H0 Ht.
  - cbn in Ht. lia.
  - cbn [elapsed foldr] in *. fold (elapsed es) in *.
    unfold run. cbn [foldl step]. unfold advance. cbn [timers promise follow].
    rewrite !filter_nil. cbn [fmap list_fmap foldl].
    destruct (N.leb_spec t ms).
    + by apply (run_settled _ s).
    + fold (run (Job (Following (Eventually (t - ms) s)) [] n None a b) es).
      apply IH; lia.
  - cbn [elapsed foldr] in *. fold (elapsed es) in *. by apply IH.
Qed.

(** X6: When the wrapped function returns a promise, the promise of [promisify]
    follows it: pending until the callee's promise settles, then settled the
    same way, however small [timeout] was. *)
Theorem promisify_adopts fn timeout args t s es :
  call apply fn args = Returns (Promise (Eventually t s)) → (0 < t)%N →
  let j := run (promisify apply StringToNumber fn timeout args) es in
  ((elapsed es < t)%N → promise j = Following (Eventually (t - elapsed es) s)) ∧
  ((t ≤ elapsed es)%N → promise j = Settled s) ∧
  reject_calls j = 0.
Proof.
  intros Hcall Ht. cbv zeta. rewrite promisify_job, Hcall.
  change (resolve _ _) with (Job (Following (Eventually t s)) [] 1 None 1 0).
  split_and!.
  - intros H. by rewrite run_following.
  - intros H. by rewrite run_followed.
  - destruct (run_without_timers (Job (Following (Eventually t s)) [] 1 None 1 0) es)
      as (_ & _ & _ & ->); done.
Qed.
End WrapperMore.

(** A polyfill that settles after ten seconds, as [GM_registerMenuCommand]
    does when the body never comes. *)
Lemma promisify_adopts_witness :
  let j := run (promisify (λ _ _, Returns (Promise (Eventually 10000 (Fulfilled VNull))))
                  no_strings (VHost "slow") (VNum 5000) [])
               [Advance 6000; Advance 4000] in
  promise j = Settled (Fulfilled VNull) ∧ reject_calls j = 0.
Proof.
  destruct (promisify_adopts
              (λ _ _, Returns (Promise (Eventually 10000 (Fulfilled VNull))))
              no_strings (VHost "slow") (VNum 5000) [] 10000 (Fulfilled VNull)
              [Advance 6000; Advance 4000] eq_refl eq_refl) as (_ & Hs & Hr).
  split; [apply Hs; vm_compute; discriminate | exact Hr].
Defined.

Section WaiterMore.
Implicit Types (d : document) (j : job) (es : list event).

Lemma run_armed_overdue es ms_left :
  (0 < ms_left)%N → (ms_left ≤ elapsed es)%N →
  run (armed ms_left false) es = timed_out.
Proof.
  revert ms_left. induction es as [|[ms|d] es IH]; intros ms_left H0 Ht.
  - cbn in Ht. lia.
  - cbn [elapsed foldr] in *. fold (elapsed es) in *.
    unfold run. cbn [foldl step].
    destruct (N.le_gt_cases ms_left ms).
    + rewrite advance_armed_due by done.
      by apply (run_settled _ (Rejected (VError "Timeout waiting for body"))).
    + rewrite advance_armed_early by lia.
      fold (run (armed (ms_left - ms) false) es). apply IH; lia.
  - cbn [elapsed foldr] in *. fold (elapsed es) in *.
    unfold run. cbn [foldl step]. rewrite notify_armed_quiet by auto.
    by apply IH.
Qed.

(** The four shapes a waiter can have. *)
Lemma waitForBody_shape timeout d es :
  let j := run (waitForBody timeout d) es in
  (∃ b, body d = Some b ∧ j = Job (Settled (Fulfilled (VNode b))) [] 0 None 1 0) ∨
  (∃ ms_left obs, body d = None ∧ j = armed ms_left obs) ∨
  (∃ b, body d = None ∧ j = body_found b) ∨
  (body d = None ∧ j = timed_out).
Proof.
  cbv zeta. induction es as [|e es IH] using rev_ind.
  - destruct (body d) as [b|] eqn:Hb.
    + left. exists b. by rewrite (waitForBody_present _ _ _ Hb).
    + right. left. rewrite (waitForBody_absent _ _ Hb). eauto.
  - rewrite run_app.
    destruct IH as [(b & Hb & ->)|[(l & obs & Hb & ->)|[(b & Hb & ->)| [Hb ->]]]].
    + left. exists b. split; [done|].
      by apply (run_settled _ (Fulfilled (VNode b))).
    + right. destruct e as [ms|d'].
      * rewrite run_one. destruct (N.le_gt_cases l ms).
        -- right. right. by rewrite advance_armed_due.
        -- left. rewrite advance_armed_early by done. eauto.
      * rewrite run_one_change. destruct obs, (body d') as [b|] eqn:Hb'.
        -- right. left. exists b. by rewrite (notify_armed_body _ _ _ Hb').
        -- left. rewrite notify_armed_quiet by auto. eauto.
        -- left. rewrite notify_armed_quiet by auto. eauto.
        -- left. rewrite notify_armed_quiet by auto. eauto.
    + right. right. left. exists b. split; [done|].
      by apply (run_settled _ (Fulfilled (VNode b))).
    + right. right. right. split; [done|].
      by apply (run_settled _ (Rejected (VError "Timeout waiting for body"))).
Qed.

(** X7: Whatever the document, the timeout and the events: the waiter calls
    [resolve] or [reject] at most once; while it is pending exactly one timer
    is armed; once it is settled no timer is left and the observer is
    disconnected. *)
Theorem waitForBody_settles_once timeout d es :
  let j := run (waitForBody timeout d) es in
  (resolve_calls j + reject_calls j ≤ 1)%nat ∧
  match promise j with
  | Pending =>
      body d = None ∧ length (timers j) = 1 ∧
      resolve_calls j = 0 ∧ reject_calls j = 0
  | _ => timers j = [] ∧ observing j = false ∧
         resolve_calls j + reject_calls j = 1
  end.
Proof.
  cbv zeta.
  destruct (waitForBody_shape timeout d es)
    as [(b & Hb & ->)|[(l & obs & Hb & ->)|[(b & Hb & ->)| [Hb ->]]]];
    cbn; split_and!; try done; lia.
Qed.

(** X8: Without an observer (the document is not loading, or has no root
    element) the waiter never resolves: it is pending until [timeout] ms have
    passed and rejected from then on, whatever happens to the document. *)
Theorem waitForBody_unobserved timeout d es :
  body d = None →
  readyState d ≠ Loading ∨ documentElement d = None →
  let j := run (waitForBody timeout d) es in
  resolve_calls j = 0 ∧
  ((elapsed es < Z.to_N timeout)%N → promise j = Pending) ∧
  ((0 < timeout)%Z → (Z.to_N timeout ≤ elapsed es)%N →
   promise j = Settled (Rejected (VError "Timeout waiting for body"))).
Proof.
  intros Hb Hno. cbv zeta. rewrite (waitForBody_absent _ _ Hb).
  assert (is_loading (readyState d) && bool_decide (is_Some (documentElement d)) = false)
    as ->.
  { destruct Hno as [Hnl| ->]; [by destruct (readyState d)|].
    rewrite bool_decide_eq_false_2; [apply andb_false_r|]. by intros [? [=]]. }
  destruct (N.lt_ge_cases (elapsed es) (Z.to_N timeout)) as [Hlt|Hge].
  - rewrite run_armed_waits by auto. cbn. split_and!; [done|done|lia].
  - destruct (Z.lt_ge_cases 0 timeout) as [Hpos|Hneg].
    + rewrite run_armed_overdue by lia. cbn. split_and!; [done|lia|done].
    + split_and!; [|lia|lia].
      pose proof (waitForBody_shape timeout d es) as Hs. cbv zeta in Hs.
      rewrite (waitForBody_absent _ _ Hb) in Hs.
      assert (is_loading (readyState d)
              && bool_decide (is_Some (documentElement d)) = false) as Hobs.
      { destruct Hno as [Hnl| Hnr]; [by destruct (readyState d)|]. rewrite Hnr.
        rewrite bool_decide_eq_false_2; [apply andb_false_r|]. by intros [? [=]]. }
      rewrite Hobs in Hs.
      assert (∀ es l, resolve_calls (run (armed l false) es) = 0) as Hnever.
      { clear. induction es as [|[ms|d'] es IH]; intros l; [done| |].
        - unfold run. cbn [foldl step]. destruct (N.le_gt_cases l ms).
          + rewrite advance_armed_due by done.
            by rewrite (run_settled _ (Rejected (VError "Timeout waiting for body"))).
          + rewrite advance_armed_early by done. apply IH.
        - unfold run. cbn [foldl step]. rewrite notify_armed_quiet by auto. apply IH. }
      apply Hnever.
Qed.

Lemma waitForBody_unobserved_witness :
  let d := Document None Loading None None None 10 in
  let j := run (waitForBody 3000 d) [Mutate (with_body 5 d); Advance 3000] in
  resolve_calls j = 0 ∧
  promise j = Settled (Rejected (VError "Timeout waiting for body")).
Proof.
  destruct (waitForBody_unobserved 3000 (Document None Loading None None None 10)
              [Mutate (with_body 5 (Document None Loading None None None 10));
               Advance 3000] eq_refl (or_intror eq_refl)) as (H0 & _ & Hr).
  split; [exact H0 | apply Hr; [reflexivity | vm_compute; discriminate]].
Defined.
End WaiterMore.

(* ================================================================== *)
(** * Further properties of the menu and of the resource text *)

Section MenuMore.
Implicit Types (d : document) (c : registration) (cmds : list registration).

Lemma register_entry_existing version c d m :
  gm_menu d = Some m →
  (register_entry version c.1.1 c.1.2 c.2 d).2
  = Document (body d) (readyState d) (documentElement d)
      (Some (Menu (menu_node m) (data_gm_version m)
               (children m ++ [entry_of (next_node d) c])))
      (contextMenu d) (S (next_node d)).
Proof. unfold register_entry. by intros ->. Qed.

Lemma register_all_cons version c cmds d :
  register_all version (c :: cmds) d
  = register_all version cmds (register_entry version c.1.1 c.1.2 c.2 d).2.
Proof. reflexivity. Qed.

Lemma register_all_existing version cmds d m :
  gm_menu d = Some m →
  register_all version cmds d
  = Document (body d) (readyState d) (documentElement d)
      (Some (Menu (menu_node m) (data_gm_version m)
               (children m ++ imap (λ i c, entry_of (next_node d + i) c) cmds)))
      (contextMenu d) (next_node d + length cmds).
Proof.
  revert d m. induction cmds as [|c cmds IH]; intros d m Hm.
  - cbn. rewrite app_nil_r, Nat.add_0_r. destruct d, m. by simplify_eq/=.
  - rewrite register_all_cons, (register_entry_existing _ _ _ _ Hm).
    erewrite IH by reflexivity. cbn [body readyState documentElement contextMenu
      next_node menu_node data_gm_version children length imap].
    rewrite <- app_assoc. cbn [app]. rewrite Nat.add_0_r.
    assert (imap ((λ i c0, entry_of (next_node d + i) c0) ∘ S) cmds
            = imap (λ i c0, entry_of (S (next_node d) + i) c0) cmds) as ->.
    { apply imap_ext. intros i x _. cbn. f_equal. lia. }
    f_equal. lia.
Qed.

(** X9: Registrations share one menu: the first one creates it when it is not
    there (tagged with the version and set as context menu of the body),
    every one appends its entry, in order, at a new node, with one listener
    that runs once; nothing else of the document changes. *)
Theorem register_all_shares_menu version cmds d :
  cmds ≠ [] →
  let d' := register_all version cmds d in
  let base := match gm_menu d with Some _ => next_node d | None => S (next_node d) end in
  body d' = body d ∧ readyState d' = readyState d ∧
  documentElement d' = documentElement d ∧
  next_node d' = base + length cmds ∧
  contextMenu d'
    = match gm_menu d with Some _ => contextMenu d | None => Some "gm-registered-menu" end ∧
  ∃ m', gm_menu d' = Some m' ∧
    menu_node m' = match gm_menu d with Some m => menu_node m | None => next_node d end ∧
    data_gm_version m'
      = match gm_menu d with Some m => data_gm_version m | None => Some version end ∧
    children m'
      = (match gm_menu d with Some m => children m | None => [] end
         ++ imap (λ i c, entry_of (base + i) c) cmds)%list.
Proof.
  intros Hne. cbv zeta. destruct (gm_menu d) as [m|] eqn:Hm.
  - rewrite (register_all_existing _ _ _ _ Hm). cbn. split_and!; try done. eauto.
  - destruct cmds as [|c cmds]; [done|].
    rewrite register_all_cons. erewrite register_all_existing.
    2:{ unfold register_entry. rewrite Hm. reflexivity. }
    unfold register_entry. rewrite Hm. cbn. split_and!; try done; [lia|].
    eexists. split_and!; try done. cbn. rewrite Nat.add_0_r. f_equal.
    apply imap_ext. intros i x _. cbn. f_equal. lia.
Qed.

Lemma register_all_shares_menu_witness :
  let d' := register_all (VStr "4.0.0")
              [(VStr "A", VHost "a", VUndefined); (VStr "B", VHost "b", VStr "b")]
              (with_body 5 loading_document) in
  next_node d' = 13 ∧ contextMenu d' = Some "gm-registered-menu" ∧
  (children <$> gm_menu d')
  = Some [MenuItem 11 (VStr "A") None [Listener (WrappedCommand (VHost "a")) true];
          MenuItem 12 (VStr "B") (Some (VStr "b"))
                   [Listener (WrappedCommand (VHost "b")) true]].
Proof.
  destruct (register_all_shares_menu (VStr "4.0.0")
              [(VStr "A", VHost "a", VUndefined); (VStr "B", VHost "b", VStr "b")]
              (with_body 5 loading_document))
    as (_ & _ & _ & Hn & Hc & m' & Hm & _ & _ & Hch); [done|].
  cbv zeta. split; [exact Hn|]. split; [exact Hc|]. rewrite Hm. cbn. by rewrite Hch.
Defined.

Lemma current_app d es es' : current d (es ++ es') = current (current d es) es'.
Proof. unfold current. apply foldl_app. Qed.

(** X10: [GM_registerMenuCommand] from call to result.  With the body
    there at the call it registers at once.  With the body absent, in a
    loading document that has a root element it is pending and has
    registered nothing while no body has come, and when the body comes
    within 10000 ms it registers in the document of that moment and resolves
    with the new entry, logging nothing.  With the body absent in a document
    that is not loading or has no root element, it is pending and registers
    nothing for 10000 ms whatever the document does, a body that appears
    included. *)
Theorem GM_registerMenuCommand_registers version caption commandFunc key d0 :
  (is_Some (body d0) →
   GM_registerMenuCommand_run version caption commandFunc key d0 []
   = ((Settled (Fulfilled (register_entry version caption commandFunc key d0).1)),
      (register_entry version caption commandFunc key d0).2, [])) ∧
  (body d0 = None → readyState d0 = Loading → is_Some (documentElement d0) →
   ∀ pre d,
     no_body pre → (elapsed pre < 10000)%N → is_Some (body d) →
     GM_registerMenuCommand_run version caption commandFunc key d0 pre
     = (Pending, current d0 pre, []) ∧
     GM_registerMenuCommand_run version caption commandFunc key d0 (pre ++ [Mutate d])
     = ((Settled (Fulfilled (register_entry version caption commandFunc key d).1)),
        (register_entry version caption commandFunc key d).2, [])) ∧
  (body d0 = None → readyState d0 ≠ Loading ∨ documentElement d0 = None →
   ∀ es,
     (elapsed es < 10000)%N →
     GM_registerMenuCommand_run version caption commandFunc key d0 es
     = (Pending, current d0 es, [])).
Proof.
  unfold GM_registerMenuCommand_run, waitForBody_default. split_and!.
  - intros [b Hb]. rewrite (waitForBody_present _ _ _ Hb). cbn.
    by destruct (register_entry _ _ _ _ d0).
  - intros Hnone Hload Hroot pre d Hpre Ht [b Hb].
    rewrite (waitForBody_absent _ _ Hnone), Hload.
    rewrite (bool_decide_eq_true_2 _ Hroot). cbn [is_loading andb].
    change (Z.to_N 10000) with 10000%N.
    rewrite run_app, (run_armed_waits pre) by auto. split; [done|].
    rewrite run_one_change, (notify_armed_body _ _ _ Hb), current_app. cbn.
    by destruct (register_entry _ _ _ _ d).
  - intros Hnone Hno es Ht.
    rewrite (waitForBody_absent _ _ Hnone).
    assert (is_loading (readyState d0) && bool_decide (is_Some (documentElement d0)) = false)
      as ->.
    { destruct Hno as [Hnl| ->]; [by destruct (readyState d0)|].
      rewrite bool_decide_eq_false_2; [apply andb_false_r|]. by intros [? [=]]. }
    change (Z.to_N 10000) with 10000%N.
    by rewrite (run_armed_waits es) by auto.
Qed.

Lemma GM_registerMenuCommand_registers_witness :
  GM_registerMenuCommand_run (VStr "4.0.0") (VStr "Run") (VHost "cmd") VUndefined
    loading_document [Advance 500; Mutate (with_body 5 loading_document)]
  = (Settled (Fulfilled (VNode 11)),
     (register_entry (VStr "4.0.0") (VStr "Run") (VHost "cmd") VUndefined
        (with_body 5 loading_document)).2, []) ∧
  GM_registerMenuCommand_run (VStr "4.0.0") (VStr "Run") (VHost "cmd") VUndefined
    (Document None Loading None None None 10)
    [Advance 500; Mutate (with_body 5 (Document None Loading None None None 10))]
  = (Pending, with_body 5 (Document None Loading None None None 10), []).
Proof.
  split.
  - apply (proj1 (proj2 (GM_registerMenuCommand_registers (VStr "4.0.0") (VStr "Run")
                           (VHost "cmd") VUndefined loading_document))
             eq_refl eq_refl (ex_intro _ 1 eq_refl) [Advance 500]
             (with_body 5 loading_document)).
    + unfold no_body. repeat constructor.
    + reflexivity.
    + by eexists.
  - apply (proj2 (proj2 (GM_registerMenuCommand_registers (VStr "4.0.0") (VStr "Run")
                           (VHost "cmd") VUndefined
                           (Document None Loading None None None 10)))
             eq_refl (or_intror eq_refl)).
    reflexivity.
Defined.
End MenuMore.

Section ResourceTextMore.
Local Open Scope list_scope.
Local Open Scope nat_scope.
Variable net : value → nat → attempt.
Implicit Types (resourceId : value) (maxRetries : Z) (effs : list effect).



Lemma backoff_next tries : (2 ^ (Z.of_nat tries + 1) * 1000)%Z = backoff (S tries).
Proof. unfold backoff. do 2 f_equal. lia. Qed.





Lemma retry_bounded fuel resourceId maxRetries attempts tries r effs :
  retry net fuel resourceId maxRetries attempts tries = Some (r, effs) →
  (∃ v, r = Fulfilled v) ∧
  tries_of effs ≤ fuel ∧
  length (delays_of effs) = pred (tries_of effs) ∧
  ((attempts < maxRetries)%Z → 1 ≤ tries_of effs) ∧
  ((maxRetries ≤ attempts)%Z → r = Fulfilled VUndefined ∧ effs = []).
Proof.
  revert attempts tries r effs.
  induction fuel as [|fuel IH]; intros attempts tries r effs; cbn [retry];
    destruct (Z.ltb_spec attempts maxRetries) as [Hlt|Hge]; try done.
  - intros [= <- <-]. split_and!; [by eexists | cbn; lia | done | lia | done].
  - destruct (try_fetch _) as [text|error].
    { intros [= <- <-]. split_and!; [by eexists | cbn; lia | done | cbn; lia | lia]. }
    destruct (Z.eqb_spec (attempts + 1) maxRetries) as [Heq|Hne].
    { intros [= <- <-]. split_and!; [by eexists | cbn; lia | done | cbn; lia | lia]. }
    destruct (retry net fuel _ _ _ _) as [[r' effs']|] eqn:Hrec; [|done].
    intros [= <- <-].
    destruct (IH _ _ _ _ Hrec) as (Hv & Hb & Hd & Hone & _).
    specialize (Hone ltac:(lia)).
    unfold tries_of, delays_of in *. cbn. split_and!; [done|lia|lia|lia|lia].
  - intros [= <- <-]. split_and!; [by eexists | cbn; lia | done | lia | done].
Qed.


End ResourceTextMore.



(* ================================================================== *)
(** * Style injection and the debouncer *)

Section Style.
Local Open Scope list_scope.
Implicit Types (p : page_head) (css : value) (sheets : list value).

Lemma GM_addStyle_found css p h :
  find_head p = Some h →
  GM_addStyle css p
  = (VNode (next_element p),
     PageHead (head p) (head_by_tag p)
       (appended p ++ [(h, StyleElement (next_element p) "text/css"
                             (Some "GM_addStyle") css)])
       (S (next_element p)), []).
Proof. unfold GM_addStyle. by intros ->. Qed.

Lemma add_styles_cons css sheets p :
  add_styles (css :: sheets) p = add_styles sheets (GM_addStyle css p).1.2.
Proof. reflexivity. Qed.

Lemma add_styles_found sheets p h :
  find_head p = Some h →
  add_styles sheets p
  = PageHead (head p) (head_by_tag p)
      (appended p ++ imap (λ i css, (h, StyleElement (next_element p + i) "text/css"
                                          (Some "GM_addStyle") css)) sheets)
      (next_element p + length sheets).
Proof.
  revert p. induction sheets as [|css sheets IH]; intros p Hh.
  - cbn. rewrite app_nil_r, Nat.add_0_r. by destruct p.
  - rewrite add_styles_cons, (GM_addStyle_found _ _ _ Hh). cbn [fst snd].
    rewrite IH by exact Hh.
    cbn [head head_by_tag appended next_element imap length].
    rewrite <- app_assoc. cbn [app]. rewrite Nat.add_0_r.
    assert (imap ((λ i css0, (h, StyleElement (next_element p + i) "text/css"
                                   (Some "GM_addStyle") css0)) ∘ S) sheets
            = imap (λ i css0, (h, StyleElement (S (next_element p) + i) "text/css"
                                    (Some "GM_addStyle") css0)) sheets) as ->.
    { apply imap_ext. intros i x _. cbn. do 2 f_equal. lia. }
    f_equal. lia.
Qed.

(** X14: Style injection never throws.  Without a head, by either lookup, it
    returns [null], logs the error and leaves the page alone.  With a head
    ([document.head] first) each call appends one new [style] element holding
    the given text, tagged with its source, after everything appended
    before: sheets land in call order. *)
Theorem GM_addStyle_appends css sheets p :
  match find_head p with
  | None =>
      GM_addStyle css p
      = (VNull, p,
         [ConsoleErrorLine "GM_addStyle error:" (VError "Unable to find document head")]) ∧
      add_styles sheets p = p
  | Some h =>
      (head p = Some h ∨ head p = None ∧ head_by_tag p = Some h) ∧
      (GM_addStyle css p).1.1 = VNode (next_element p) ∧
      (GM_addStyle css p).2 = [] ∧
      appended (GM_addStyle css p).1.2
      = appended p ++ [(h, StyleElement (next_element p) "text/css"
                             (Some "GM_addStyle") css)] ∧
      appended (add_styles sheets p)
      = appended p ++ imap (λ i css, (h, StyleElement (next_element p + i) "text/css"
                                           (Some "GM_addStyle") css)) sheets ∧
      find_head (add_styles sheets p) = Some h
  end.
Proof.
  destruct (find_head p) as [h|] eqn:Hh.
  - split.
    { unfold find_head in Hh. destruct (head p); [left | right]; by simplify_eq. }
    rewrite (GM_addStyle_found _ _ _ Hh), (add_styles_found _ _ _ Hh).
    by split_and!.
  - split.
    + unfold GM_addStyle. by rewrite Hh.
    + induction sheets as [|c sheets IH]; [done|].
      rewrite add_styles_cons. unfold GM_addStyle. by rewrite Hh.
Qed.
End Style.

Section Debounce.
Local Open Scope list_scope.
Local Open Scope nat_scope.
Implicit Types (s : debouncer) (es : list debounce_event) (delay ms : N)
  (args : list value).

Lemma debounce_run_app delay es es' :
  debounce_run delay (es ++ es')
  = foldl (debounce_step delay) (debounce_run delay es) es'.
Proof. unfold debounce_run. apply foldl_app. Qed.

(** What is known of the state after any events: no timer waits, or the one
    that [timeoutId] names does, holding the arguments of the latest call. *)
Lemma debounce_shape delay es :
  let s := debounce_run delay es in
  (waiting s = [] ∨
   ∃ id ms args pre,
     waiting s = [(id, ms, args)] ∧ timeoutId s = Some id ∧
     calls_of es = pre ++ [args] ∧ sublist (applied s) pre) ∧
  sublist (applied s) (calls_of es).
Proof.
  cbv zeta. induction es as [|e es IH] using rev_ind.
  - split; [by left | done].
  - rewrite debounce_run_app. cbn [foldl]. unfold calls_of in *.
    rewrite omap_app. cbn [omap]. destruct IH as [Hshape Hsub].
    destruct e as [args|ms]; cbn [debounce_step].
    + assert ((match timeoutId (debounce_run delay es) with
               | Some id => filter (λ t, t.1.1 ≠ id) (waiting (debounce_run delay es))
               | None => waiting (debounce_run delay es)
               end) = []) as Hclear.
      { destruct Hshape as [->|(id & ms & a & pre & -> & -> & _)].
        - by destruct (timeoutId _).
        - rewrite filter_cons, filter_nil. cbn. by rewrite decide_False by auto. }
      unfold debounced. rewrite Hclear. cbn. split.
      * right. eexists _, _, _, _. split_and!; [done|done|done|done].
      * by apply sublist_inserts_r.
    + rewrite app_nil_r. unfold debounce_advance.
      destruct Hshape as [Hw|(id & left & a & pre & Hw & Hid & Hcalls & Hpre)];
        rewrite Hw.
      * cbn. rewrite app_nil_r. split; [by left | done].
      * rewrite !filter_cons, !filter_nil. cbn [fst snd].
        destruct (decide (ms < left)%N), (decide (left ≤ ms)%N); try lia; cbn.
        -- rewrite app_nil_r. split; [|done]. right.
           eexists _, _, _, _. split_and!; [done|done|done|done].
        -- split; [by left|]. rewrite Hcalls. by apply sublist_app.
Qed.

(** X15: At any moment at most one timer of a debounced function is waiting, and
    it is the one [timeoutId] names. *)
Theorem debounce_one_timer delay es :
  let s := debounce_run delay es in
  length (waiting s) ≤ 1 ∧
  ∀ t, t ∈ waiting s → timeoutId s = Some t.1.1.
Proof.
  cbv zeta. destruct (debounce_shape delay es) as [[Hw|(id & ms & a & pre & Hw & Hid & _)] _];
    rewrite Hw; cbn; split; try lia.
  - intros t Ht. by apply elem_of_nil in Ht.
  - intros t Ht. apply list_elem_of_singleton in Ht. by subst.
Qed.

(** X16: The function is only ever applied to arguments the closure was called
    with, in the order of those calls, and never more often than the closure
    was called. *)
Theorem debounce_applies_calls delay es :
  let s := debounce_run delay es in
  sublist (applied s) (calls_of es) ∧
  length (applied s) ≤ length (calls_of es).
Proof.
  cbv zeta. destruct (debounce_shape delay es) as [_ Hsub].
  split; [done | by apply sublist_length].
Qed.

Lemma burst_keeps_quiet delay b s id ms args :
  Forall (λ c, (c.2 < delay)%N) b →
  waiting s = [(id, ms, args)] ∧ timeoutId s = Some id ∨ waiting s = [] →
  b ≠ [] →
  let s' := foldl (debounce_step delay) s (burst b) in
  applied s' = applied s ∧
  ∃ id' ms' last, waiting s' = [(id', ms', last)] ∧ timeoutId s' = Some id'.
Proof.
  intros Hb. revert s id ms args. induction Hb as [|[a w] b Hw Hb IH];
    intros s id ms args Hs Hne; [done|].
  cbv zeta. cbn [burst flat_map app foldl debounce_step fst snd]. fold (burst b).
  remember (debounce_advance w (debounced delay a s)) as s1 eqn:Hs1.
  assert (applied s1 = applied s ∧
          waiting s1 = [(next_id s, (delay - w)%N, a)] ∧
          timeoutId s1 = Some (next_id s)) as (Ha & Hw1 & Hid1).
  { subst s1. unfold debounce_advance, debounced.
    assert ((match timeoutId s with
             | Some id => filter (λ t, t.1.1 ≠ id) (waiting s)
             | None => waiting s
             end) = []) as ->.
    { destruct Hs as [[-> ->]| ->]; [|by destruct (timeoutId s)].
      rewrite filter_cons, filter_nil. cbn. by rewrite decide_False by auto. }
    cbn in *. repeat case_decide; try lia. cbn. by rewrite app_nil_r. }
  destruct b as [|c b].
  - cbn. rewrite Ha. split; [done|]. eauto.
  - destruct (IH s1 (next_id s) (delay - w)%N a) as (Ha' & Hw'); [auto|done|].
    cbv zeta in Ha', Hw'. rewrite Ha', Ha. split; [done|]. exact Hw'.
Qed.

(** X17: Debouncing: however many calls follow each other with less than [delay]
    between them, the function is applied once, [delay] after the last call
    at the earliest, and to the arguments of that last call. *)
Theorem debounce_burst delay pre b last w :
  Forall (λ c, (c.2 < delay)%N) b → (delay ≤ w)%N →
  let before := debounce_run delay pre in
  let mid := debounce_run delay (pre ++ burst b ++ [Call last]) in
  let after := debounce_run delay (pre ++ burst b ++ [Call last; Wait w]) in
  applied mid = applied before ∧
  applied after = applied before ++ [last] ∧
  waiting after = [].
Proof.
  intros Hb Hw. cbv zeta.
  replace (burst b ++ [Call last; Wait w]) with ((burst b ++ [Call last]) ++ [Wait w])
    by by rewrite <- app_assoc.
  rewrite (app_assoc pre _ [Wait w]), (debounce_run_app _ (pre ++ _) [Wait w]).
  rewrite !app_assoc, (debounce_run_app _ (pre ++ burst b) [Call last]).
  rewrite (debounce_run_app _ pre (burst b)).
  set (s := debounce_run delay pre).
  assert (waiting s = [] ∨ ∃ id ms args, waiting s = [(id, ms, args)] ∧ timeoutId s = Some id)
    as Hs.
  { destruct (debounce_shape delay pre) as [[?|(id & ms & a & ? & ? & ? & _)] _];
      [by left | right; eauto]. }
  set (s' := foldl (debounce_step delay) s (burst b)).
  assert (applied s' = applied s ∧
          (waiting s' = [] ∨
           ∃ id ms args, waiting s' = [(id, ms, args)] ∧ timeoutId s' = Some id))
    as [Ha Hs'].
  { destruct b as [|c b]; [by split|].
    destruct Hs as [Hs|(id & ms & args & Hs)].
    - destruct (burst_keeps_quiet delay (c :: b) s 0 0%N [] Hb (or_intror Hs))
        as (? & id' & ms' & l' & ?); [done|]. split; [done|]. right. eauto.
    - destruct (burst_keeps_quiet delay (c :: b) s id ms args Hb (or_introl Hs))
        as (? & id' & ms' & l' & ?); [done|]. split; [done|]. right. eauto. }
  cbn [foldl debounce_step]. unfold debounce_advance, debounced.
  assert ((match timeoutId s' with
           | Some id => filter (λ t, t.1.1 ≠ id) (waiting s')
           | None => waiting s'
           end) = []) as ->.
  { destruct Hs' as [->|(id & ms & a & -> & ->)]; [by destruct (timeoutId s')|].
    rewrite filter_cons, filter_nil. cbn. by rewrite decide_False by auto. }
  cbn. repeat case_decide; try lia. cbn. by rewrite Ha.
Qed.

Lemma debounce_burst_witness :
  let es := burst [([VNum 1], 30%N); ([VNum 2], 99%N)] ++ [Call [VNum 3]; Wait 100] in
  applied (debounce_run 100 es) = [[VNum 3]] ∧ waiting (debounce_run 100 es) = [].
Proof.
  destruct (debounce_burst 100 [] [([VNum 1], 30%N); ([VNum 2], 99%N)] [VNum 3] 100)
    as (_ & Ha & Hw).
  - repeat constructor.
  - reflexivity.
  - split; [exact Ha | exact Hw].
Defined.
End Debounce.

(* ================================================================== *)
(** * The other two scripts *)

Section OtherScripts.
Local Open Scope list_scope.
Local Open Scope nat_scope.
Variable apply : value → list value → completion.
Implicit Types (r : realm) (g w : gmap string value) (k : string) (v : value).

Lemma second_install_inv r :
  match window r !! "GM_info" with
  | None =>
      SecondScript.install r
      = (Realm (window r) (Some (default ∅ (GM r))) (S (fresh r + 3)),
         Some (ReferenceError "GM_info"))
  | Some info =>
      (SecondScript.install r).2 = None ∧
      window (SecondScript.install r).1
      = foldl polyfill_step (window r) (polyfills (fresh r)) ∧
      GM (SecondScript.install r).1
      = Some (foldl (promise_step (window (SecondScript.install r).1))
                (foldl direct_step (default ∅ (GM r))
                   (SecondScript.directMappings info (fresh r + 3)),
                 S (fresh r + 3))
                SecondScript.promiseMappings).1
  end.
Proof.
  unfold SecondScript.install, global.
  destruct (window r !! "GM_info") as [info|]; [|by destruct (GM r)].
  destruct (GM r) as [g|]; cbn [from_option id];
    destruct (foldl _ _ SecondScript.promiseMappings) as [g2 n3] eqn:Hloop;
    (split_and!; [done | done |]); cbn [fst GM window]; by rewrite Hloop.
Qed.

(** X18: In the second script the forwarding function is faithful: a pair of the
    table whose legacy value is truthy and whose unified name is missing (or
    falsy) gets one forwarding function over the legacy value, and calling it
    with any arguments settles as the legacy function called with those same
    arguments. *)
Theorem second_script_forwards_faithfully r oldKey newKey :
  let r' := (SecondScript.install r).1 in
  is_Some (window r !! "GM_info") →
  (oldKey, newKey) ∈ SecondScript.promiseMappings →
  to_boolean (get (window r') oldKey) = true →
  to_boolean (GM_get r newKey) = false →
  ∃ o,
    GM_lookup r' newKey = Some (VForward (get (window r') oldKey) o) ∧
    ∀ args, ∃ j,
      SecondScript.invoke apply (VForward (get (window r') oldKey) o) args = Some j ∧
      promise j = deferred (call apply (get (window r') oldKey) args) ∧
      timers j = [].
Proof.
  cbv zeta. intros [info Hinfo] Hin Hold Hnew.
  pose proof (second_install_inv r) as Hinv. rewrite Hinfo in Hinv.
  destruct Hinv as (_ & Hw & Hg).
  destruct (promise_loop_installs (window (SecondScript.install r).1)
              SecondScript.promiseMappings
              (foldl direct_step (default ∅ (GM r))
                 (SecondScript.directMappings info (fresh r + 3)), S (fresh r + 3))
              oldKey newKey) as [o Ho]; [compute_done | done | done | |].
  { cbn [fst]. unfold get. rewrite direct_loop_other.
    - rewrite GM_get_lookup in Hnew. unfold GM_lookup in Hnew.
      destruct (GM r); [done|]. cbn [from_option id]. by rewrite lookup_empty.
    - assert (Forall (λ p, p.2 ∉ ["log"; "info"]) SecondScript.promiseMappings) as H
        by compute_done.
      rewrite Forall_forall in H. exact (H _ Hin). }
  exists o. split; [by rewrite (GM_lookup_Some _ _ _ Hg)|].
  intros args. eexists. split; [reflexivity|].
  unfold SecondScript.forward, SecondScript.promisify.
  by destruct (call apply _ args) as [[?|?]|?].
Qed.

(** X19: When [GM_info] is not declared the second script ends with a
    ReferenceError after it has created the namespace: an empty [GM] is left
    behind (or the one that was there, untouched), and nothing is put on the
    legacy surface. *)
Theorem second_script_without_GM_info r :
  window r !! "GM_info" = None →
  (SecondScript.install r).2 = Some (ReferenceError "GM_info") ∧
  window (SecondScript.install r).1 = window r ∧
  GM (SecondScript.install r).1 = Some (default ∅ (GM r)) ∧
  (GM r = None → ∀ k, GM_lookup (SecondScript.install r).1 k = None).
Proof.
  intros Hinfo. pose proof (second_install_inv r) as Hinv. rewrite Hinfo in Hinv.
  rewrite Hinv. split_and!; try done.
  intros -> k. unfold GM_lookup. cbn. apply lookup_empty.
Qed.

Lemma second_run_idle (wt : SecondScript.waiter) es :
  SecondScript.observes wt = false → SecondScript.run wt es = wt.
Proof.
  intros Hw. induction es as [|[ms|d] es IH]; [done|exact IH|].
  unfold SecondScript.run in *. cbn [foldl]. unfold SecondScript.notify.
  by rewrite Hw.
Qed.

Lemma second_run_watching es :
  no_body es →
  SecondScript.run (SecondScript.Waiter None true 0) es
  = SecondScript.Waiter None true 0.
Proof.
  induction es as [|[ms|d] es IH]; intros Hes; [done| |].
  - apply no_body_cons in Hes as [_ Hes]. by apply IH.
  - apply no_body_cons in Hes as [Hd Hes]. unfold SecondScript.run in *.
    cbn [foldl]. unfold SecondScript.notify. cbn. rewrite Hd. by apply IH.
Qed.

(** X20: The waiter of the second script has no deadline.  With the body absent
    at the call: in a document that is not loading, or has no root element,
    its promise stays pending whatever happens; in a loading document it is
    pending until the first change that brings a body, resolves with that
    body by one call of [resolve], and is not touched again. *)
Theorem second_script_waiter d :
  body d = None →
  (readyState d ≠ Loading ∨ documentElement d = None →
   ∀ es, SecondScript.resolved (SecondScript.run (SecondScript.waitForBody d) es) = None) ∧
  (readyState d = Loading → is_Some (documentElement d) →
   ∀ pre d' b post,
     no_body pre → body d' = Some b →
     SecondScript.resolved (SecondScript.run (SecondScript.waitForBody d) pre) = None ∧
     SecondScript.run (SecondScript.waitForBody d) (pre ++ [Mutate d'] ++ post)
     = SecondScript.Waiter (Some (VNode b)) false 1).
Proof.
  intros Hb. unfold SecondScript.waitForBody. rewrite Hb. split.
  - intros Hno es.
    assert (is_loading (readyState d) && bool_decide (is_Some (documentElement d)) = false)
      as ->.
    { destruct Hno as [Hnl| ->]; [by destruct (readyState d)|].
      rewrite bool_decide_eq_false_2; [apply andb_false_r|]. by intros [? [=]]. }
    by rewrite second_run_idle.
  - intros -> Hroot pre d' b post Hpre Hb'.
    rewrite (bool_decide_eq_true_2 _ Hroot). cbn [is_loading andb].
    unfold SecondScript.run at 2. rewrite !foldl_app.
    fold (SecondScript.run (SecondScript.Waiter None true 0) pre).
    rewrite second_run_watching by done. split; [done|].
    cbn [foldl]. unfold SecondScript.notify at 2. cbn. rewrite Hb'.
    by apply second_run_idle.
Qed.

(** *** The installer of the third script keeps every defined binding *)

Lemma unnamed_direct_keeps l g k v :
  g !! k = Some v → v ≠ VUndefined →
  foldl UnnamedPart.direct_step g l !! k = Some v.
Proof.
  revert g. induction l as [|[newKey old] l IH]; intros g Hk Hv; [done|].
  cbn [foldl]. apply IH; [|done]. unfold UnnamedPart.direct_step.
  destruct (decide (newKey = k)) as [->|Hne].
  - rewrite (get_Some _ _ _ Hk). destruct v; try done; by rewrite andb_false_r.
  - destruct (_ && _); [by rewrite lookup_insert_ne | done].
Qed.

Lemma unnamed_promise_keeps w l st k v :
  st.1 !! k = Some v → v ≠ VUndefined →
  (foldl (UnnamedPart.promise_step w) st l).1 !! k = Some v.
Proof.
  revert st. induction l as [|[oldKey newKey] l IH]; intros [g n] Hk Hv; [done|].
  cbn [foldl]. apply IH; [|done]. unfold UnnamedPart.promise_step. cbn [fst] in *.
  destruct (decide (newKey = k)) as [->|Hne].
  - rewrite (get_Some _ _ _ Hk). destruct v; try done; by rewrite andb_false_r.
  - destruct (_ && _); cbn [fst]; [by rewrite lookup_insert_ne | done].
Qed.

(** X21: The third script tests presence, not truthiness: every name bound to
    anything but [undefined], on the namespace or on the legacy surface, has
    the same binding after the script, whether it ran to its end or threw. *)
Theorem unnamed_part_never_overwrites r k v :
  v ≠ VUndefined →
  (GM_lookup r k = Some v → GM_lookup (UnnamedPart.install r).1 k = Some v) ∧
  (window r !! k = Some v → window (UnnamedPart.install r).1 !! k = Some v).
Proof.
  intros Hv. unfold UnnamedPart.install, global, GM_lookup.
  destruct (window r !! "GM_info") as [info|].
  - destruct (foldl (UnnamedPart.promise_step _) _ _) as [g2 n3] eqn:Hloop.
    cbn [fst GM window]. split.
    + destruct (GM r) as [g|]; cbn; [|done]. intros Hk.
      change g2 with (g2, n3).1. rewrite <- Hloop.
      apply unnamed_promise_keeps; [|done]. by apply unnamed_direct_keeps.
    + intros Hk. by apply polyfill_loop_keeps.
  - cbn [fst GM window]. split; [|done]. by destruct (GM r).
Qed.
End OtherScripts.

Lemma second_script_forwards_faithfully_witness :
  ∃ o,
    GM_lookup (SecondScript.install legacy_realm).1 "getValue"
      = Some (VForward (VHost "GM_getValue") o) ∧
    (promise <$> SecondScript.invoke first_argument (VForward (VHost "GM_getValue") o)
                   [VStr "k"; VStr "d"])
      = Some (Settled (Fulfilled (VStr "k"))).
Proof.
  destruct (second_script_forwards_faithfully first_argument legacy_realm
              "GM_getValue" "getValue") as (o & Ho & Hcall).
  - by eexists.
  - compute_done.
  - reflexivity.
  - reflexivity.
  - exists o. split; [exact Ho|].
    destruct (Hcall [VStr "k"; VStr "d"]) as (j & Hinv & Hj & _).
    change (SecondScript.invoke first_argument (VForward (VHost "GM_getValue") o)
              [VStr "k"; VStr "d"] = Some j) in Hinv.
    rewrite Hinv. cbn. by rewrite Hj.
Defined.

Lemma second_script_without_GM_info_witness :
  (SecondScript.install (Realm ∅ None 0)).2 = Some (ReferenceError "GM_info") ∧
  GM (SecondScript.install (Realm ∅ None 0)).1 = Some ∅.
Proof.
  destruct (second_script_without_GM_info (Realm ∅ None 0))
    as (He & _ & Hg & _); [reflexivity|].
  split; [exact He | exact Hg].
Defined.

Lemma second_script_waiter_witness :
  SecondScript.resolved
    (SecondScript.run (SecondScript.waitForBody bodiless_document)
       [Mutate (with_body 5 bodiless_document); Advance 100000]) = None.
Proof.
  apply (proj1 (second_script_waiter bodiless_document eq_refl)).
  left. discriminate.
Defined.

Lemma unnamed_part_never_overwrites_witness :
  GM_lookup (UnnamedPart.install seeded_realm).1 "notification" = Some VNull.
Proof.
  apply (proj1 (unnamed_part_never_overwrites seeded_realm "notification" VNull
                  ltac:(discriminate))).
  reflexivity.
Defined.
